(** * bolt.diy chat route: a shallow embedding of [app/routes/api.chat.ts]

    The file embeds the chat action handler: cookie parsing, the
    pre-stream error response, the in-stream error classifier, token usage
    accumulation and the continuation protocol driven by [onFinish]. *)

From Stdlib Require Import String Ascii.
From stdpp Require Import base numbers option list gmap.

(** ** JavaScript values the handler manipulates *)

Module JS.

Local Open Scope N_scope.

(** A JavaScript string is a sequence of UTF-16 code units. *)
Definition jsstring := list N.

(** Source literals are ASCII; [str] embeds them unit by unit. *)
Definition str (s : string) : jsstring :=
  List.map N_of_ascii (list_ascii_of_string s).

Arguments str : simpl never.

(** Exceptions the handler can meet. *)
Inductive Exn :=
  | URIError
  | SyntaxError
  | TypeError
  | RangeError
  | Error (message : jsstring).

(** The result of evaluating code that may throw. *)
Inductive Completion (A : Type) :=
  | Normal (a : A)
  | Throw (e : Exn).
Arguments Normal {A} a.
Arguments Throw {A} e.

Definition bind {A B} (c : Completion A) (k : A -> Completion B) : Completion B :=
  match c with
  | Normal a => k a
  | Throw e => Throw e
  end.

Definition eqb_str (a b : jsstring) : bool := bool_decide (a = b).

(** [s.startsWith(p)] *)
Fixpoint startsWith (p s : jsstring) : bool :=
  match p, s with
  | [], _ => true
  | _ :: _, [] => false
  | a :: p', b :: s' => (a =? b)%N && startsWith p' s'
  end.

(** [s.includes(p)] *)
Fixpoint includes (p s : jsstring) : bool :=
  startsWith p s ||
  match s with
  | [] => false
  | _ :: s' => includes p s'
  end.

(** [s.split(c)] for a separator of one code unit; never returns []. *)
Fixpoint split (c : N) (s : jsstring) : list jsstring :=
  match s with
  | [] => [[]]
  | x :: s' =>
      if (x =? c)%N then [] :: split c s'
      else match split c s' with
           | h :: t => (x :: h) :: t
           | [] => [[x]]
           end
  end.

(** [l.join(c)] for a separator of one code unit. *)
Fixpoint join (c : N) (l : list jsstring) : jsstring :=
  match l with
  | [] => []
  | [s] => s
  | s :: l' => s ++ c :: join c l'
  end.

(** WhiteSpace and LineTerminator code units, which [trim] strips. *)
Definition is_space (c : N) : bool :=
  ((9 <=? c) && (c <=? 13) || (c =? 32) || (c =? 160) || (c =? 5760)
   || (8192 <=? c) && (c <=? 8202) || (c =? 8232) || (c =? 8233)
   || (c =? 8239) || (c =? 8287) || (c =? 12288) || (c =? 65279))%N.

Fixpoint trimStart (s : jsstring) : jsstring :=
  match s with
  | [] => []
  | c :: s' => if is_space c then trimStart s' else s
  end.

Definition trimEnd (s : jsstring) : jsstring := rev (trimStart (rev s)).

Definition trim (s : jsstring) : jsstring := trimEnd (trimStart s).

(** *** [decodeURIComponent]

    The builtin reads the string left to right.  A code unit other than
    '%' is copied.  A '%' must start an escape [%XX] with two hexadecimal
    digits; an escaped octet below 0x80 is the code unit itself, a larger one
    must start an UTF-8 sequence of two to four escaped octets encoding a
    scalar value in shortest form.  Anything else throws URIError. *)

Definition hex (c : N) : option N :=
  if (48 <=? c) && (c <=? 57) then Some (c - 48)
  else if (65 <=? c) && (c <=? 70) then Some (c - 55)
  else if (97 <=? c) && (c <=? 102) then Some (c - 87)
  else None.

Inductive token :=
  | Lit (c : N)
  | Oct (b : N).

(** First pass: split the string into literal units and escaped octets. *)
Fixpoint escapes (s : jsstring) : option (list token) :=
  match s with
  | [] => Some []
  | c :: s1 =>
      if (c =? 37)%N then
        match s1 with
        | h :: l :: rest =>
            match hex h, hex l, escapes rest with
            | Some a, Some b, Some ts => Some (Oct (16 * a + b)%N :: ts)
            | _, _, _ => None
            end
        | _ => None
        end
      else
        match escapes s1 with
        | Some ts => Some (Lit c :: ts)
        | None => None
        end
  end.

(** A continuation octet [10xxxxxx] gives its six payload bits. *)
Definition cont (t : token) : option N :=
  match t with
  | Oct b => if (128 <=? b) && (b <=? 191) then Some (b - 128)%N else None
  | Lit _ => None
  end.

(** The UTF-16 code units of a scalar value. *)
Definition utf16 (cp : N) : jsstring :=
  (if cp <? 65536 then [cp]
   else [55296 + (cp - 65536) / 1024; 56320 + (cp - 65536) mod 1024])%N.

(** Second pass: decode the escaped octets as UTF-8. *)
Fixpoint utf8 (ts : list token) : option jsstring :=
  match ts with
  | [] => Some []
  | Lit c :: ts1 => cons c <$> utf8 ts1
  | Oct b :: ts1 =>
      if (b <? 128)%N then cons b <$> utf8 ts1
      else if (b <? 192)%N then None
      else if (b <? 224)%N then
        match ts1 with
        | t1 :: ts2 =>
            match cont t1 with
            | Some x1 =>
                let cp := ((b - 192) * 64 + x1)%N in
                if (cp <? 128)%N then None
                else app (utf16 cp) <$> utf8 ts2
            | None => None
            end
        | _ => None
        end
      else if (b <? 240)%N then
        match ts1 with
        | t1 :: t2 :: ts3 =>
            match cont t1, cont t2 with
            | Some x1, Some x2 =>
                let cp := ((b - 224) * 4096 + x1 * 64 + x2)%N in
                if (cp <? 2048)%N || (55296 <=? cp)%N && (cp <=? 57343)%N
                then None
                else app (utf16 cp) <$> utf8 ts3
            | _, _ => None
            end
        | _ => None
        end
      else if (b <? 248)%N then
        match ts1 with
        | t1 :: t2 :: t3 :: ts4 =>
            match cont t1, cont t2, cont t3 with
            | Some x1, Some x2, Some x3 =>
                let cp := ((b - 240) * 262144 + x1 * 4096 + x2 * 64 + x3)%N in
                if (cp <? 65536)%N || (1114111 <? cp)%N then None
                else app (utf16 cp) <$> utf8 ts4
            | _, _, _ => None
            end
        | _ => None
        end
      else None
  end.

Definition decodeURIComponent (s : jsstring) : Completion jsstring :=
  match escapes s with
  | Some ts =>
      match utf8 ts with
      | Some r => Normal r
      | None => Throw URIError
      end
  | None => Throw URIError
  end.

(** A string is truthy when it is not empty. *)
Definition truthy_str (s : jsstring) : bool :=
  match s with
  | [] => false
  | _ => true
  end.

(** [s || d] on a possibly undefined string. *)
Definition or_str (s : option jsstring) (d : jsstring) : jsstring :=
  match s with
  | Some (c :: r) => c :: r
  | _ => d
  end.

(** Values of untyped properties ([any]). A missing property reads as
    [Undefined]. *)
Inductive jsval :=
  | Undefined
  | Null
  | Bool (b : bool)
  | Num (z : Z)
  | Str (s : jsstring)
  | Obj (fields : props)
with props :=
  | no_props
  | prop (key : jsstring) (value : jsval) (rest : props).

Definition truthy (v : jsval) : bool :=
  match v with
  | Undefined | Null => false
  | Bool b => b
  | Num z => negb (z =? 0)%Z
  | Str s => truthy_str s
  | Obj _ => true
  end.

(** [a || b] *)
Definition or_val (a b : jsval) : jsval := if truthy a then a else b.

(** [v !== false] *)
Definition not_false (v : jsval) : bool :=
  match v with
  | Bool false => false
  | _ => true
  end.

(** [n || d] on a possibly missing number. *)
Definition or_num (n : option Z) (d : Z) : Z :=
  match n with
  | Some z => if (z =? 0)%Z then d else z
  | None => d
  end.

End JS.

Import JS.

Notation "'try!' x := c 'in' k" := (JS.bind c (fun x => k))
  (at level 10, x name, c at level 100, k at level 200).

(** ** Cookie parsing (api.chat.ts, parseCookies) *)

Module Cookies.

(** The key whose assignment on a plain object sets no own property. *)
Definition proto_key : jsstring := str "__proto__".

(** [cookies[k] = v] on the object literal [{}] with a string value. *)
Definition assign (cookies : gmap jsstring jsstring) (k v : jsstring)
  : gmap jsstring jsstring :=
  if eqb_str k proto_key then cookies else <[k := v]> cookies.

(** The body of the [forEach] callback for one item. *)
Definition parseItem (cookies : gmap jsstring jsstring) (item : jsstring)
  : Completion (gmap jsstring jsstring) :=
  match split 61 item with
  | name :: rest =>
      if truthy_str name then
        try! decodedName := decodeURIComponent (trim name) in
        try! decodedValue := decodeURIComponent (trim (join 61 rest)) in
        Normal (assign cookies decodedName decodedValue)
      else Normal cookies
  | [] => Normal cookies
  end.

Fixpoint forEach (items : list jsstring) (cookies : gmap jsstring jsstring)
  : Completion (gmap jsstring jsstring) :=
  match items with
  | [] => Normal cookies
  | item :: items' =>
      try! cookies' := parseItem cookies item in
      forEach items' cookies'
  end.

Definition parseCookies (cookieHeader : jsstring)
  : Completion (gmap jsstring jsstring) :=
  let items := List.map trim (split 59 cookieHeader) in
  forEach items ∅.

(** *** The cookie map as the specification words it *)

(** The text of an item before its first '='. *)
Fixpoint before_eq (item : jsstring) : jsstring :=
  match item with
  | [] => []
  | x :: item' => if (x =? 61)%N then [] else x :: before_eq item'
  end.

(** The text of an item after its first '=', empty when there is none. *)
Fixpoint after_eq (item : jsstring) : jsstring :=
  match item with
  | [] => []
  | x :: item' => if (x =? 61)%N then item' else after_eq item'
  end.

(** The entry an item stands for: none when the name is empty, else the
    decoded trimmed name with the decoded trimmed remainder. *)
Definition entry_of (item : jsstring) : Completion (option (jsstring * jsstring)) :=
  if truthy_str (before_eq item) then
    try! k := decodeURIComponent (trim (before_eq item)) in
    try! v := decodeURIComponent (trim (after_eq item)) in
    Normal (Some (k, v))
  else Normal None.

Fixpoint entries_of (items : list jsstring) : Completion (list (jsstring * jsstring)) :=
  match items with
  | [] => Normal []
  | item :: items' =>
      try! e := entry_of item in
      try! es := entries_of items' in
      Normal (match e with
              | Some kv => kv :: es
              | None => es
              end)
  end.

(** A text is a well-formed percent-encoding when it can be decoded. *)
Definition well_formed (s : jsstring) : bool :=
  match decodeURIComponent s with
  | Normal _ => true
  | Throw _ => false
  end.

(** The decoding of a well-formed text. *)
Definition decoded (s : jsstring) : jsstring :=
  match decodeURIComponent s with
  | Normal d => d
  | Throw _ => s
  end.

(** An item that cannot be read: its name is not empty, and its trimmed
    name or its trimmed remainder is malformed. *)
Definition malformed (item : jsstring) : bool :=
  truthy_str (before_eq item)
  && negb (well_formed (trim (before_eq item)) && well_formed (trim (after_eq item))).

(** The entries of well-formed items, left to right: one for each item
    with a non-empty name. *)
Definition entries (items : list jsstring) : list (jsstring * jsstring) :=
  omap (fun item =>
          if truthy_str (before_eq item)
          then Some (decoded (trim (before_eq item)), decoded (trim (after_eq item)))
          else None) items.

(** The value of the last entry named [k]. *)
Definition last_value (k : jsstring) (es : list (jsstring * jsstring))
  : option jsstring :=
  snd <$> last (List.filter (fun kv => eqb_str (fst kv) k) es).

(** The map after one more entry, and after a list of them. *)
Definition add_entry (m : gmap jsstring jsstring) (e : option (jsstring * jsstring))
  : gmap jsstring jsstring :=
  match e with
  | Some (k, v) => assign m k v
  | None => m
  end.

Definition assign_all (m : gmap jsstring jsstring) (es : list (jsstring * jsstring))
  : gmap jsstring jsstring :=
  fold_left (fun m kv => assign m (fst kv) (snd kv)) es m.

End Cookies.

(** ** In-stream error classification (api.chat.ts, onError) *)

Module StreamError.

Definition MSG_MODEL : jsstring := str
  "Custom error: Invalid model selected. Please check that the model name is correct and available.".
Definition MSG_JSON : jsstring := str
  "Custom error: The AI service returned an invalid response. This may be due to an invalid model name, API rate limiting, or server issues. Try selecting a different model or check your API key.".
Definition MSG_AUTH : jsstring := str
  "Custom error: Invalid or missing API key. Please check your API key configuration.".
Definition MSG_TOKEN : jsstring := str
  "Custom error: Token limit exceeded. The conversation is too long for the selected model. Try using a model with larger context window or start a new conversation.".
Definition MSG_RATE : jsstring := str
  "Custom error: API rate limit exceeded. Please wait a moment before trying again.".
Definition MSG_NETWORK : jsstring := str
  "Custom error: Network error. Please check your internet connection and try again.".

(** [onError]; its argument is [error.message]. *)
Definition onError (error_message : option jsstring) : jsstring :=
  let errorMessage := or_str error_message (str "Unknown error") in
  if includes (str "model") errorMessage && includes (str "not found") errorMessage
  then MSG_MODEL
  else if includes (str "Invalid JSON response") errorMessage
  then MSG_JSON
  else if includes (str "API key") errorMessage
          || includes (str "unauthorized") errorMessage
          || includes (str "authentication") errorMessage
  then MSG_AUTH
  else if includes (str "token") errorMessage && includes (str "limit") errorMessage
  then MSG_TOKEN
  else if includes (str "rate limit") errorMessage || includes (str "429") errorMessage
  then MSG_RATE
  else if includes (str "network") errorMessage || includes (str "timeout") errorMessage
  then MSG_NETWORK
  else str "Custom error: " ++ errorMessage.

(** The return statement that [onError] reaches, in source order. *)
Inductive Bucket :=
  | InvalidModel
  | InvalidResponse
  | Authentication
  | TokenLimit
  | RateLimit
  | Network
  | Unknown.

Definition bucket (error_message : option jsstring) : Bucket :=
  let errorMessage := or_str error_message (str "Unknown error") in
  if includes (str "model") errorMessage && includes (str "not found") errorMessage
  then InvalidModel
  else if includes (str "Invalid JSON response") errorMessage
  then InvalidResponse
  else if includes (str "API key") errorMessage
          || includes (str "unauthorized") errorMessage
          || includes (str "authentication") errorMessage
  then Authentication
  else if includes (str "token") errorMessage && includes (str "limit") errorMessage
  then TokenLimit
  else if includes (str "rate limit") errorMessage || includes (str "429") errorMessage
  then RateLimit
  else if includes (str "network") errorMessage || includes (str "timeout") errorMessage
  then Network
  else Unknown.

Definition render (b : Bucket) (errorMessage : jsstring) : jsstring :=
  match b with
  | InvalidModel => MSG_MODEL
  | InvalidResponse => MSG_JSON
  | Authentication => MSG_AUTH
  | TokenLimit => MSG_TOKEN
  | RateLimit => MSG_RATE
  | Network => MSG_NETWORK
  | Unknown => str "Custom error: " ++ errorMessage
  end.

(** The checks made before the rate-limit one. *)
Definition earlier_match (msg : jsstring) : bool :=
  includes (str "model") msg && includes (str "not found") msg
  || includes (str "Invalid JSON response") msg
  || includes (str "API key") msg
  || includes (str "unauthorized") msg
  || includes (str "authentication") msg
  || includes (str "token") msg.

End StreamError.

(** ** The response of the action (api.chat.ts, chatAction, try/catch) *)

Module Http.

(** The value caught by [catch (error: any)], through the four properties
    the handler reads. [statusCode] is a number when it is there. *)
Record Thrown := {
  message : option jsstring;
  statusCode : option Z;
  isRetryable : jsval;
  provider : option jsstring;
}.

(** The object passed to [JSON.stringify]. *)
Record ErrorBody := {
  body_error : bool;
  body_message : jsstring;
  body_statusCode : Z;
  body_isRetryable : bool;
  body_provider : jsstring;
}.

Section Responses.

(** What a streamed body yields. *)
Variable Stream : Type.

Inductive Payload :=
  | EventStream (stream : Stream)
  | Json (b : ErrorBody).

Record Response := {
  payload : Payload;
  status : Z;
  statusText : jsstring;
  contentType : jsstring;
}.

(** The statuses of a response that has no body. *)
Definition null_body_status (st : Z) : bool :=
  (st =? 101)%Z || (st =? 103)%Z || (st =? 204)%Z || (st =? 205)%Z || (st =? 304)%Z.

(** [new Response(body, init)] with a body: [init.status] is converted to
    an unsigned short, that is reduced modulo 65536; the constructor throws
    a RangeError for a status outside 200..599 and a TypeError for a status
    that allows no body. *)
Definition new_Response (b : Payload) (st : Z) (text ct : jsstring)
  : Completion Response :=
  let status := (st mod 65536)%Z in
  if (200 <=? status)%Z && (status <=? 599)%Z
  then
    if null_body_status status then Throw TypeError
    else Normal {| payload := b; status := status; statusText := text;
                   contentType := ct |}
  else Throw RangeError.

(** [error.message?.includes('API key')] *)
Definition mentions_api_key (error : Thrown) : bool :=
  match message error with
  | Some m => includes (str "API key") m
  | None => false
  end.

(** The [catch] block. *)
Definition on_catch (error : Thrown) : Completion Response :=
  let errorResponse := {|
    body_error := true;
    body_message := or_str (message error) (str "An unexpected error occurred");
    body_statusCode := or_num (statusCode error) 500;
    body_isRetryable := not_false (isRetryable error);
    body_provider := or_str (provider error) (str "unknown");
  |} in
  if mentions_api_key error then
    new_Response
      (Json {| body_error := body_error errorResponse;
               body_message := str "Invalid or missing API key";
               body_statusCode := 401;
               body_isRetryable := false;
               body_provider := body_provider errorResponse |})
      401 (str "Unauthorized") (str "application/json")
  else
    new_Response (Json errorResponse) (body_statusCode errorResponse)
      (str "Error") (str "application/json").

Section Action.

(** [JSON.parse], applied to the two cookie values. *)
Variable Json_value : Type.
Variable JSON_parse : jsstring -> Completion Json_value.

(** [JSON.parse(parseCookies(cookieHeader || '').k || '{}')] *)
Definition cookie_setting (cookieHeader : option jsstring) (k : jsstring)
  : Completion Json_value :=
  try! cookies := Cookies.parseCookies (or_str cookieHeader []) in
  JSON_parse (or_str (cookies !! k) (str "{}")).

(** [chatAction] up to the response. [json] is the outcome of
    [request.json()], read before the [try]; [setup] is the exception, if
    any, thrown inside the [try] before the stream is returned;
    [uiMessageStream] is the stream built from the request. *)
Definition chatAction {Body : Type} (json : Completion Body)
    (cookieHeader : option jsstring) (setup : option Thrown)
    (uiMessageStream : Body -> Stream)
  : Completion Response :=
  try! body := json in
  try! apiKeys := cookie_setting cookieHeader (str "apiKeys") in
  try! providerSettings := cookie_setting cookieHeader (str "providers") in
  match setup with
  | None =>
      new_Response (EventStream (uiMessageStream body)) 200 []
        (str "text/event-stream; charset=utf-8")
  | Some error => on_catch error
  end.

End Action.

End Responses.

Arguments EventStream {Stream} stream.
Arguments Json {Stream} b.
Arguments payload {Stream} r.
Arguments status {Stream} r.
Arguments statusText {Stream} r.
Arguments contentType {Stream} r.
Arguments Build_Response {Stream} payload status statusText contentType.
Arguments new_Response {Stream} b st text ct.
Arguments on_catch {Stream} error.
Arguments chatAction {Stream} Json_value JSON_parse {Body} json cookieHeader setup
  uiMessageStream.

End Http.

(** ** Token usage (the block repeated in the three [onFinish] callbacks) *)

Module Usage.

(** A token count as it arrives: a number, which may be NaN, or
    [undefined].  The source reads the values [as number]; the usage type of
    the SDK declares them [number | undefined].  A count that is a number
    is an integer. *)
Inductive count :=
  | number (n : Z)
  | NaN
  | undefined.

(** The [usage] object of a finished model call: each key may be missing. *)
Record LanguageModelUsage := {
  promptTokens : option count;
  inputTokens : option count;
  completionTokens : option count;
  outputTokens : option count;
  totalTokens : option count;
}.

(** [cumulativeUsage] *)
Record Cumulative := {
  cum_completionTokens : Z;
  cum_promptTokens : Z;
  cum_totalTokens : Z;
}.

Definition zero : Cumulative :=
  {| cum_completionTokens := 0; cum_promptTokens := 0; cum_totalTokens := 0 |}.

(** [a + b]: NaN as soon as one side is no number. *)
Definition add (a b : count) : count :=
  match a, b with
  | number x, number y => number (x + y)
  | _, _ => NaN
  end.

(** [n || 0]: 0, NaN and [undefined] are falsy. *)
Definition or0 (n : count) : Z :=
  match n with
  | number z => if (z =? 0)%Z then 0%Z else z
  | NaN => 0%Z
  | undefined => 0%Z
  end.

(** ['a' in usage ? usage.a : 'b' in usage ? usage.b : 0] *)
Definition pick (a b : option count) : count :=
  match a with
  | Some n => n
  | None => match b with
            | Some n => n
            | None => number 0
            end
  end.

(** [if (usage) { ... cumulativeUsage.x += x || 0 ... }] *)
Definition accumulate (c : Cumulative) (usage : option LanguageModelUsage)
  : Cumulative :=
  match usage with
  | None => c
  | Some u =>
      let promptTokens := pick (promptTokens u) (inputTokens u) in
      let completionTokens := pick (completionTokens u) (outputTokens u) in
      let totalTokens :=
        match totalTokens u with
        | Some n => n
        | None => add promptTokens completionTokens
        end in
      {| cum_completionTokens := (cum_completionTokens c + or0 completionTokens)%Z;
         cum_promptTokens := (cum_promptTokens c + or0 promptTokens)%Z;
         cum_totalTokens := (cum_totalTokens c + or0 totalTokens)%Z |}
  end.

(** *** The accounting as the specification words it *)

(** The count a field reports: it is present when it holds a number. *)
Definition present (field : option count) : option Z :=
  match field with
  | Some (number n) => Some n
  | _ => None
  end.

(** The prompt count a sub-call reports: under [promptTokens], else under
    [inputTokens], else 0. *)
Definition reported_prompt (usage : option LanguageModelUsage) : Z :=
  match usage with
  | Some u =>
      match present (promptTokens u), present (inputTokens u) with
      | Some p, _ => p
      | None, Some p => p
      | None, None => 0%Z
      end
  | None => 0%Z
  end.

Definition reported_completion (usage : option LanguageModelUsage) : Z :=
  match usage with
  | Some u =>
      match present (completionTokens u), present (outputTokens u) with
      | Some c, _ => c
      | None, Some c => c
      | None, None => 0%Z
      end
  | None => 0%Z
  end.

(** The provider's total verbatim when the field is there, else the sum. *)
Definition reported_total (usage : option LanguageModelUsage) : Z :=
  match usage with
  | Some u =>
      match present (totalTokens u) with
      | Some t => t
      | None => (reported_prompt usage + reported_completion usage)%Z
      end
  | None => 0%Z
  end.

Fixpoint sum (f : option LanguageModelUsage -> Z)
    (reports : list (option LanguageModelUsage)) : Z :=
  match reports with
  | [] => 0%Z
  | r :: reports' => (f r + sum f reports')%Z
  end.

Definition componentwise_sum (reports : list (option LanguageModelUsage))
  : Cumulative :=
  {| cum_completionTokens := sum reported_completion reports;
     cum_promptTokens := sum reported_prompt reports;
     cum_totalTokens := sum reported_total reports |}.

(** Componentwise addition of totals. *)
Definition plus (a b : Cumulative) : Cumulative :=
  {| cum_completionTokens := (cum_completionTokens a + cum_completionTokens b)%Z;
     cum_promptTokens := (cum_promptTokens a + cum_promptTokens b)%Z;
     cum_totalTokens := (cum_totalTokens a + cum_totalTokens b)%Z |}.

(** *** What the handler counts a report for *)

(** A count that is no number counts 0. *)
Definition worth (n : count) : Z :=
  match n with
  | number z => z
  | NaN => 0%Z
  | undefined => 0%Z
  end.

(** The first of the two keys that is there decides, whatever it holds. *)
Definition counted_prompt (usage : option LanguageModelUsage) : Z :=
  match usage with
  | Some u =>
      match promptTokens u, inputTokens u with
      | Some n, _ => worth n
      | None, Some n => worth n
      | None, None => 0%Z
      end
  | None => 0%Z
  end.

Definition counted_completion (usage : option LanguageModelUsage) : Z :=
  match usage with
  | Some u =>
      match completionTokens u, outputTokens u with
      | Some n, _ => worth n
      | None, Some n => worth n
      | None, None => 0%Z
      end
  | None => 0%Z
  end.

(** A [totalTokens] key that is there decides, whatever it holds; without
    it the total is the sum of the two counts read, and 0 unless both are
    numbers. *)
Definition counted_total (usage : option LanguageModelUsage) : Z :=
  match usage with
  | Some u =>
      match totalTokens u with
      | Some n => worth n
      | None =>
          match pick (promptTokens u) (inputTokens u),
                pick (completionTokens u) (outputTokens u) with
          | number p, number c => (p + c)%Z
          | _, _ => 0%Z
          end
      end
  | None => 0%Z
  end.

Definition counted (usage : option LanguageModelUsage) : Cumulative :=
  {| cum_completionTokens := counted_completion usage;
     cum_promptTokens := counted_prompt usage;
     cum_totalTokens := counted_total usage |}.

Definition counted_sum (reports : list (option LanguageModelUsage)) : Cumulative :=
  {| cum_completionTokens := sum counted_completion reports;
     cum_promptTokens := sum counted_prompt reports;
     cum_totalTokens := sum counted_total reports |}.

(** Every key of the report that is there holds a number. *)
Definition numeric_field (field : option count) : Prop :=
  match field with
  | Some (number _) | None => True
  | Some _ => False
  end.

Definition numeric (usage : option LanguageModelUsage) : Prop :=
  match usage with
  | Some u =>
      numeric_field (promptTokens u) /\ numeric_field (inputTokens u)
      /\ numeric_field (completionTokens u) /\ numeric_field (outputTokens u)
      /\ numeric_field (totalTokens u)
  | None => True
  end.

End Usage.

(** ** The stream orchestration (api.chat.ts, execute and its callbacks) *)

Module Chat.

Import Usage.

Inductive Role :=
  | user
  | assistant
  | system.

Definition role_eqb (a b : Role) : bool :=
  match a, b with
  | user, user | assistant, assistant | system, system => true
  | _, _ => false
  end.

Record UIMessage := {
  id : jsstring;
  ui_role : Role;
  parts : list jsstring;
}.

Record CoreMessage := {
  role : Role;
  content : jsstring;
}.

(** A file map, with its keys in [Object.keys] order. *)
Definition FileMap := list (jsstring * jsstring).

Inductive Label :=
  | summary
  | context
  | response.

Inductive Status :=
  | in_progress
  | complete.

Record ProgressAnnotation := {
  label : Label;
  status : Status;
  order : nat;
  message : jsstring;
}.

(** What [writer.write] receives. *)
Inductive Event :=
  | data_progress (p : ProgressAnnotation)
  | data_chatSummary (text : jsstring) (chatId : option jsstring)
  | data_codeContext (files : list jsstring)
  | data_usage (value : Cumulative).

(** The arguments of [streamText] that differ between calls; the others
    are the fields of the request, the same in every call. *)
Record StreamTextArgs := {
  st_messages : list CoreMessage;
  st_contextFiles : option FileMap;
  st_summary : option jsstring;
  st_messageSliceId : nat;
}.

Inductive ModelCall :=
  | call_createSummary (messages : list CoreMessage)
  | call_selectContext (messages : list CoreMessage) (text : jsstring)
  | call_streamText (a : StreamTextArgs).

Record ToolCall := {
  toolCallId : jsstring;
  toolName : jsstring;
  input : jsval;
  args : jsval;
}.

(** The first argument of [mcpService.processToolCall]. *)
Record Invocation := {
  inv_toolCallId : jsstring;
  inv_toolName : jsstring;
  inv_args : jsval;
}.

(** What [onFinish] receives. *)
Record Finish := {
  text : jsstring;
  finishReason : jsstring;
  usage : option LanguageModelUsage;
}.

(** The mutable variables of one request and the effects it has had:
    events written, model calls issued, tool calls handed to the mediator. *)
Record State := {
  cumulativeUsage : Cumulative;
  progressCounter : nat;
  switches : nat;
  written : list Event;
  calls : list ModelCall;
  mediated : list Invocation;
}.

(** *** State and exceptions *)

Definition M (A : Type) : Type := State -> State * Completion A.

Definition ret {A} (a : A) : M A := fun s => (s, Normal a).

Definition throw {A} (e : Exn) : M A := fun s => (s, Throw e).

Definition bindM {A B} (m : M A) (k : A -> M B) : M B :=
  fun s =>
    match m s with
    | (s', Normal a) => k a s'
    | (s', Throw e) => (s', Throw e)
    end.

Notation "'do' x <- m ; k" := (bindM m (fun x => k))
  (at level 10, x name, m at level 100, k at level 200).
Notation "m ;; k" := (bindM m (fun _ => k))
  (at level 100, k at level 200, right associativity).

(** [await c] for a call that replies or rejects. *)
Definition await {A} (c : Completion A) : M A := fun s => (s, c).

(** [writer.write(e)] *)
Definition write (e : Event) : M unit :=
  fun s =>
    ({| cumulativeUsage := cumulativeUsage s;
        progressCounter := progressCounter s;
        switches := switches s;
        written := written s ++ [e];
        calls := calls s;
        mediated := mediated s |}, Normal tt).

(** [progressCounter++] *)
Definition next_order : M nat :=
  fun s =>
    ({| cumulativeUsage := cumulativeUsage s;
        progressCounter := S (progressCounter s);
        switches := switches s;
        written := written s;
        calls := calls s;
        mediated := mediated s |}, Normal (progressCounter s)).

Definition progress (l : Label) (st : Status) (msg : jsstring) : M unit :=
  do n <- next_order;
  write (data_progress {| label := l; status := st; order := n; message := msg |}).

(** A model call leaves the handler. *)
Definition issue (c : ModelCall) : M unit :=
  fun s =>
    ({| cumulativeUsage := cumulativeUsage s;
        progressCounter := progressCounter s;
        switches := switches s;
        written := written s;
        calls := calls s ++ [c];
        mediated := mediated s |}, Normal tt).

(** The usage block of an [onFinish] callback. *)
Definition add_usage (u : option LanguageModelUsage) : M unit :=
  fun s =>
    ({| cumulativeUsage := accumulate (cumulativeUsage s) u;
        progressCounter := progressCounter s;
        switches := switches s;
        written := written s;
        calls := calls s;
        mediated := mediated s |}, Normal tt).

(** [mcpService.processToolCall(inv, writer)] *)
Definition processToolCall (inv : Invocation) : M unit :=
  fun s =>
    ({| cumulativeUsage := cumulativeUsage s;
        progressCounter := progressCounter s;
        switches := switches s;
        written := written s;
        calls := calls s;
        mediated := mediated s ++ [inv] |}, Normal tt).

Definition get {A} (f : State -> A) : M A := fun s => (s, Normal (f s)).

(** A property of the state that a computation keeps. *)
Definition preserves {A} (I : State -> Prop) (m : M A) : Prop :=
  forall s, I s -> I (fst (m s)).

(** The request body, as far as [execute] reads it. *)
Record ChatRequest := {
  messages : list UIMessage;
  files : option FileMap;
  contextOptimization : bool;
}.

(** The reply of a sub-call, which hands [resp] to its [onFinish] once. *)
Record Reply (A : Type) := {
  result : A;
  resp_usage : option LanguageModelUsage;
}.
Arguments result {A} r.
Arguments resp_usage {A} r.

(** What the model side does during one request: the outcome of
    [createSummary], of [selectContext], and the finish of each generation
    segment in the order the calls are made. *)
Record Env := {
  summaryReply : Completion (Reply jsstring);
  selectReply : Completion (Reply (option FileMap));
  segments : list Finish;
}.

(** How the handling of a finish ends. *)
Inductive Step :=
  | Done
  | Continued.

(** How far the response got. *)
Inductive Outcome :=
  | Finished
  | Open.

(** What [execute] has computed when it builds [options]. *)
Record Closure := {
  processedMessages : list UIMessage;
  filteredFiles : option FileMap;
  chat_summary : option jsstring;
  messageSliceId : nat;
}.

Section Orchestrator.

(** Constants and helpers imported by api.chat.ts. *)
Variable MAX_RESPONSE_SEGMENTS : nat.
Variable CONTINUE_PROMPT : jsstring.
Variable WORK_DIR : jsstring.
Variable convertToCoreMessages : list UIMessage -> list CoreMessage.
Variable extractPropertiesFromMessage : CoreMessage -> jsstring * jsstring.
Variable processToolInvocations : list UIMessage -> list UIMessage.
Variable getFilePaths : FileMap -> list jsstring.

(** [stream.switches] of a fresh [SwitchableStream]. *)
Variable fresh_switches : nat.

(** [onStepFinish] *)
Fixpoint onStepFinish (toolCalls : list ToolCall) : M unit :=
  match toolCalls with
  | [] => ret tt
  | toolCall :: toolCalls' =>
      processToolCall
        {| inv_toolCallId := toolCallId toolCall;
           inv_toolName := toolName toolCall;
           inv_args := or_val (or_val (input toolCall) (args toolCall)) (Obj no_props) |} ;;
      onStepFinish toolCalls'
  end.

Definition MAX_SEGMENTS_MESSAGE : jsstring :=
  str "Cannot continue message: Maximum segments reached".

(** The template literal of the continuation message. *)
Definition directive (model provider : jsstring) : jsstring :=
  str "[Model: " ++ model ++ str "]" ++ [10; 10]%N ++
  str "[Provider: " ++ provider ++ str "]" ++ [10; 10]%N ++ CONTINUE_PROMPT.

(** [options.onFinish] *)
Definition onFinish (cl : Closure) (f : Finish) : M Step :=
  add_usage (usage f) ;;
  if negb (eqb_str (finishReason f) (str "length")) then
    do c <- get cumulativeUsage;
    write (data_usage {| cum_completionTokens := cum_completionTokens c;
                         cum_promptTokens := cum_promptTokens c;
                         cum_totalTokens := cum_totalTokens c |}) ;;
    progress response complete (str "Response Generated") ;;
    ret Done
  else
    do n <- get switches;
    if (MAX_RESPONSE_SEGMENTS <=? n)%nat then throw (Error MAX_SEGMENTS_MESSAGE)
    else
      match last (List.filter (fun x => role_eqb (ui_role x) user) (processedMessages cl)) with
      | None => throw TypeError
      | Some lastUserMessage =>
          match convertToCoreMessages [lastUserMessage] with
          | [] => throw TypeError
          | m :: _ =>
              let '(model, provider) := extractPropertiesFromMessage m in
              let coreMessages :=
                convertToCoreMessages (processedMessages cl)
                ++ [ {| role := assistant; content := text f |} ]
                ++ [ {| role := user; content := directive model provider |} ] in
              issue (call_streamText
                       {| st_messages := coreMessages;
                          st_contextFiles := filteredFiles cl;
                          st_summary := chat_summary cl;
                          st_messageSliceId := messageSliceId cl |}) ;;
              ret Continued
          end
      end.

(** The segments of one response: each finish of a call runs [onFinish],
    and a continuation is finished by the next one. *)
Fixpoint drive (cl : Closure) (fins : list Finish) : M Outcome :=
  match fins with
  | [] => ret Open
  | f :: fins' =>
      do s <- onFinish cl f;
      match s with
      | Done => ret Finished
      | Continued => drive cl fins'
      end
  end.

(** The key of a selected file as the client sees it. *)
Definition shown_path (key : jsstring) : jsstring :=
  if startsWith WORK_DIR key then drop (List.length WORK_DIR) key else key.

(** The block under [if (filePaths.length > 0 && contextOptimization)]. *)
Definition optimize (env : Env) (processed : list UIMessage)
  : M (option FileMap * option jsstring) :=
  progress summary in_progress (str "Analysing Request") ;;
  issue (call_createSummary (convertToCoreMessages processed)) ;;
  do r <- await (summaryReply env);
  add_usage (resp_usage r) ;;
  progress summary complete (str "Analysis Complete") ;;
  write (data_chatSummary (result r) (id <$> last processed)) ;;
  progress context in_progress (str "Determining Files to Read") ;;
  issue (call_selectContext (convertToCoreMessages processed) (result r)) ;;
  do c <- await (selectReply env);
  add_usage (resp_usage c) ;;
  match result c with
  | None => throw TypeError
  | Some selected =>
      write (data_codeContext (List.map (fun kv => shown_path (fst kv)) selected)) ;;
      progress context complete (str "Code Files Selected") ;;
      ret (Some selected, Some (result r))
  end.

Definition optimizing (req : ChatRequest) : bool :=
  (0 <? List.length (getFilePaths (default [] (files req))))%nat
  && contextOptimization req.

(** [execute({ writer })] *)
Definition execute (req : ChatRequest) (env : Env) : M Outcome :=
  let processed := processToolInvocations (messages req) in
  let sliceId :=
    if (3 <? List.length processed)%nat then (List.length processed - 3)%nat else 0%nat in
  do ctx <- (if optimizing req then optimize env processed else ret (None, None));
  let cl := {| processedMessages := processed;
               filteredFiles := fst ctx;
               chat_summary := snd ctx;
               messageSliceId := sliceId |} in
  progress response in_progress (str "Generating Response") ;;
  issue (call_streamText
           {| st_messages := convertToCoreMessages processed;
              st_contextFiles := filteredFiles cl;
              st_summary := chat_summary cl;
              st_messageSliceId := messageSliceId cl |}) ;;
  drive cl (segments env).

(** The variables of [chatAction] when [execute] starts. *)
Definition initial : State :=
  {| cumulativeUsage := zero;
     progressCounter := 1;
     switches := fresh_switches;
     written := [];
     calls := [];
     mediated := [] |}.

Definition run (req : ChatRequest) (env : Env) : State * Completion Outcome :=
  execute req env initial.

(** *** Observations on a run *)

Definition orders (evs : list Event) : list nat :=
  omap (fun e => match e with data_progress p => Some (order p) | _ => None end) evs.

Definition usage_events (evs : list Event) : list Cumulative :=
  omap (fun e => match e with data_usage v => Some v | _ => None end) evs.

(** Events of the context optimization step. *)
Definition is_context_event (e : Event) : bool :=
  match e with
  | data_progress {| label := summary |} => true
  | data_progress {| label := context |} => true
  | data_chatSummary _ _ => true
  | data_codeContext _ => true
  | _ => false
  end.

(** The progress events written so far carry 1, 2, ... and the counter is
    the next value. *)
Definition ordered (s : State) : Prop :=
  orders (written s) = seq 1 (progressCounter s - 1) /\ 1 <= progressCounter s.

(** No event of the optimization step was written and [c] was the first
    model call. *)
Definition skipped (c : ModelCall) (s : State) : Prop :=
  Forall (fun e => is_context_event e = false) (written s)
  /\ head (calls s) = Some c.

(** The shapes tool-call arguments arrive in: an object, or nothing. *)
Definition object_or_missing (v : jsval) : Prop :=
  match v with
  | Obj _ | Undefined => True
  | _ => False
  end.

(** The arguments of a call by presence: [input], else [args], else [{}]. *)
Definition args_by_presence (toolCall : ToolCall) : jsval :=
  match input toolCall with
  | Undefined =>
      match args toolCall with
      | Undefined => Obj no_props
      | a => a
      end
  | i => i
  end.

(** The arguments of a call by truthiness: [input] when truthy, else
    [args] when truthy, else [{}]. *)
Definition args_by_truthiness (toolCall : ToolCall) : jsval :=
  if truthy (input toolCall) then input toolCall
  else if truthy (args toolCall) then args toolCall
  else Obj no_props.

Definition is_length (f : Finish) : bool := eqb_str (finishReason f) (str "length").

(** The usage reports of the generation calls made: every segment up to
    and including the first that does not finish with 'length'. *)
Fixpoint segment_reports (fins : list Finish) : list (option LanguageModelUsage) :=
  match fins with
  | [] => []
  | f :: fins' => usage f :: (if is_length f then segment_reports fins' else [])
  end.

(** The usage reports of the sub-calls of the optimization step. *)
Definition context_reports (req : ChatRequest) (env : Env)
  : list (option LanguageModelUsage) :=
  if optimizing req then
    match summaryReply env with
    | Normal r =>
        resp_usage r ::
        match selectReply env with
        | Normal c => [resp_usage c]
        | Throw _ => []
        end
    | Throw _ => []
    end
  else [].

End Orchestrator.

End Chat.

(** ** The response and its stream (api.chat.ts, chatAction) *)

Module Session.

Import Chat.

(** The chunks of the stream the handler gives rise to itself: the events
    it writes and the error chunk.  The chunks of the model's own stream,
    merged in between, are left out. *)
Inductive Chunk :=
  | chunk_data (e : Event)
  | chunk_error (errorText : jsstring).

Section Stream.

Variable MAX_RESPONSE_SEGMENTS : nat.
Variable CONTINUE_PROMPT : jsstring.
Variable WORK_DIR : jsstring.
Variable convertToCoreMessages : list UIMessage -> list CoreMessage.
Variable extractPropertiesFromMessage : CoreMessage -> jsstring * jsstring.
Variable processToolInvocations : list UIMessage -> list UIMessage.
Variable getFilePaths : FileMap -> list jsstring.
Variable fresh_switches : nat.
Variable Json_value : Type.
Variable JSON_parse : jsstring -> Completion Json_value.

(** The message of an error the engine raises itself. *)
Variable engine_message : Exn -> option jsstring.

(** [error.message] *)
Definition message_of (error : Exn) : option jsstring :=
  match error with
  | Error m => Some m
  | _ => engine_message error
  end.

(** [createUIMessageStream({ execute, onError })], run from the state [s]:
    the stream yields what the writer is handed and, when [execute] fails,
    ends with one error chunk whose text is [onError(error)]. *)
Definition createUIMessageStream (execute : M Outcome) (onError : Exn -> jsstring)
    (s : State) : list Chunk :=
  let r := execute s in
  List.map chunk_data (written (fst r)) ++
  match snd r with
  | Throw error => [chunk_error (onError error)]
  | Normal _ => []
  end.

(** [chatAction]: the request body, once parsed, is what [execute] works
    on, and the stream is the body of the response. *)
Definition chatAction (json : Completion ChatRequest)
    (cookieHeader : option jsstring) (setup : option Http.Thrown) (env : Env)
  : Completion (Http.Response (list Chunk)) :=
  Http.chatAction Json_value JSON_parse json cookieHeader setup
    (fun body =>
       createUIMessageStream
         (execute MAX_RESPONSE_SEGMENTS CONTINUE_PROMPT WORK_DIR convertToCoreMessages
            extractPropertiesFromMessage processToolInvocations getFilePaths body env)
         (fun error => StreamError.onError (message_of error))
         (initial fresh_switches)).

(** The error chunks of a stream. *)
Definition error_chunks (chunks : list Chunk) : list jsstring :=
  omap (fun c => match c with chunk_error t => Some t | chunk_data _ => None end) chunks.

End Stream.

End Session.

(** ** A sample deployment, on which the model is run *)

Module Sample.

Import Chat.

Definition no_cookie_json (s : jsstring) : Completion unit := Normal tt.

Definition quota_error : Http.Thrown :=
  {| Http.message := Some (str "Quota exhausted");
     Http.statusCode := Some 429%Z;
     Http.isRetryable := Bool false;
     Http.provider := Some (str "OpenAI") |}.

Definition MAX_RESPONSE_SEGMENTS : nat := 2.

Definition CONTINUE_PROMPT : jsstring :=
  str "Continue your prior response. Do not repeat any content.".

Definition WORK_DIR : jsstring := str "/home/project".

(** A conversion that joins the text parts of each message. *)
Definition convertToCoreMessages (ms : list UIMessage) : list CoreMessage :=
  List.map (fun m => {| role := ui_role m; content := join 10 (parts m) |}) ms.

(** What follows the first occurrence of [p] in [s]. *)
Fixpoint following (p s : jsstring) : option jsstring :=
  if startsWith p s then Some (drop (List.length p) s)
  else match s with
       | [] => None
       | _ :: s' => following p s'
       end.

(** The text up to the first ']'. *)
Fixpoint bracketed (s : jsstring) : jsstring :=
  match s with
  | [] => []
  | x :: s' => if (x =? 93)%N then [] else x :: bracketed s'
  end.

(** An extraction that reads the [Model: ...] and [Provider: ...] tags. *)
Definition extractPropertiesFromMessage (m : CoreMessage) : jsstring * jsstring :=
  (match following (str "[Model: ") (content m) with
   | Some r => bracketed r
   | None => str "claude-3-5-sonnet-latest"
   end,
   match following (str "[Provider: ") (content m) with
   | Some r => bracketed r
   | None => str "Anthropic"
   end).

Definition processToolInvocations (ms : list UIMessage) : list UIMessage := ms.

Definition getFilePaths (fm : FileMap) : list jsstring := List.map fst fm.

Definition onFinish :=
  Chat.onFinish MAX_RESPONSE_SEGMENTS CONTINUE_PROMPT convertToCoreMessages
    extractPropertiesFromMessage.

Definition drive :=
  Chat.drive MAX_RESPONSE_SEGMENTS CONTINUE_PROMPT convertToCoreMessages
    extractPropertiesFromMessage.

Definition run :=
  Chat.run MAX_RESPONSE_SEGMENTS CONTINUE_PROMPT WORK_DIR convertToCoreMessages
    extractPropertiesFromMessage processToolInvocations getFilePaths 0.

(** The messages of an engine's own errors. *)
Definition engine_message (error : Exn) : option jsstring :=
  match error with
  | URIError => Some (str "URI malformed")
  | SyntaxError => Some (str "Unexpected end of JSON input")
  | TypeError => Some (str "fetch failed")
  | RangeError => Some (str "Invalid array length")
  | Error m => Some m
  end.

Definition chatAction :=
  Session.chatAction MAX_RESPONSE_SEGMENTS CONTINUE_PROMPT WORK_DIR convertToCoreMessages
    extractPropertiesFromMessage processToolInvocations getFilePaths 0
    unit no_cookie_json engine_message.

Definition ask : UIMessage :=
  {| id := str "m1";
     ui_role := user;
     parts := [str "[Model: gpt-4o]"; []; str "[Provider: OpenAI]"; []; str "Build a shop"] |}.

Definition reply : UIMessage :=
  {| id := str "m2"; ui_role := assistant; parts := [str "Which framework?"] |}.

Definition ask_again : UIMessage :=
  {| id := str "m3";
     ui_role := user;
     parts := [str "[Model: o3-mini]"; []; str "[Provider: OpenAI]"; []; str "Remix"] |}.

Definition closure : Closure :=
  {| processedMessages := [ask; reply; ask_again];
     filteredFiles := None;
     chat_summary := None;
     messageSliceId := 0 |}.

Definition usage_v4 (p c : Z) : option Usage.LanguageModelUsage :=
  Some {| Usage.promptTokens := Some (Usage.number p); Usage.inputTokens := None;
          Usage.completionTokens := Some (Usage.number c); Usage.outputTokens := None;
          Usage.totalTokens := None |}.

Definition usage_v5 (p c t : Z) : option Usage.LanguageModelUsage :=
  Some {| Usage.promptTokens := None; Usage.inputTokens := Some (Usage.number p);
          Usage.completionTokens := None; Usage.outputTokens := Some (Usage.number c);
          Usage.totalTokens := Some (Usage.number t) |}.

Definition cut_short (t : jsstring) (u : option Usage.LanguageModelUsage) : Finish :=
  {| text := t; finishReason := str "length"; usage := u |}.

Definition stopped (t : jsstring) (u : option Usage.LanguageModelUsage) : Finish :=
  {| text := t; finishReason := str "stop"; usage := u |}.

(** The state in which a first segment finishes. *)
Definition generating (n : nat) : State :=
  {| cumulativeUsage := Usage.zero;
     progressCounter := 2;
     switches := n;
     written := [data_progress {| label := response; status := in_progress;
                                  order := 1;
                                  message := str "Generating Response" |}];
     calls := [call_streamText {| st_messages := convertToCoreMessages [ask; reply; ask_again];
                                  st_contextFiles := None;
                                  st_summary := None;
                                  st_messageSliceId := 0 |}];
     mediated := [] |}.

Definition project : FileMap :=
  [(str "/home/project/app/root.tsx", str "export default App");
   (str "/home/project/package.json", str "{}")].

Definition optimized_request : ChatRequest :=
  {| messages := [ask; reply; ask_again];
     files := Some project;
     contextOptimization := true |}.

Definition plain_request : ChatRequest :=
  {| messages := [ask; reply; ask_again];
     files := Some project;
     contextOptimization := false |}.

Definition two_segments : Env :=
  {| summaryReply := Normal {| result := str "The user wants a shop in Remix.";
                               resp_usage := usage_v5 120 30 150 |};
     selectReply := Normal {| result := Some [(str "/home/project/app/root.tsx",
                                               str "export default App")];
                              resp_usage := usage_v4 200 12 |};
     segments := [cut_short (str "<boltArtifact") (usage_v5 900 4096 4996);
                  stopped (str "</boltArtifact>") (usage_v5 5000 700 5800)] |}.

(** Four segments, three of them cut short. *)
Definition four_segments : Env :=
  {| summaryReply := Throw TypeError;
     selectReply := Throw TypeError;
     segments := [cut_short (str "a") None; cut_short (str "b") None;
                  cut_short (str "c") None; stopped (str "d") None] |}.

Definition step_calls : list ToolCall :=
  [ {| toolCallId := str "call_1"; toolName := str "search";
       input := Obj (prop (str "q") (Str (str "remix")) no_props);
       args := Undefined |};
    {| toolCallId := str "call_2"; toolName := str "fetch";
       input := Undefined;
       args := Obj (prop (str "url") (Str (str "https://remix.run")) no_props) |};
    {| toolCallId := str "call_3"; toolName := str "ping";
       input := Undefined; args := Undefined |} ].

End Sample.

(** ** The consumer of the first generation stream (api.chat.ts, execute) *)

Module Consumer.

(** A part of [result.fullStream], as far as the loop looks at it. *)
Inductive Part :=
  | part_error (message : option jsstring)
  | part_other.

(** Calls on the [StreamRecoveryManager] made by the loop. *)
Inductive MonitorCall :=
  | updateActivity
  | stop.

(** [for await (const part of result.fullStream) { ... } streamRecovery.stop()] *)
Fixpoint consume (parts : list Part) : list MonitorCall :=
  match parts with
  | [] => [stop]
  | part :: parts' =>
      updateActivity ::
      match part with
      | part_error _ => [stop]
      | part_other => consume parts'
      end
  end.

Definition is_error (p : Part) : bool :=
  match p with
  | part_error _ => true
  | part_other => false
  end.

End Consumer.

(** ** The provider cache of the models loader (getProviderInfo) *)

Module ProviderCache.

Record Provider := {
  name : jsstring;
  staticModels : list jsstring;
  getApiKeyLink : option jsstring;
  labelForGetApiKey : option jsstring;
  icon : option jsstring;
  apiTokenKey : option jsstring;
}.

Record ProviderInfo := {
  info_name : jsstring;
  info_staticModels : list jsstring;
  info_getApiKeyLink : option jsstring;
  info_labelForGetApiKey : option jsstring;
  info_icon : option jsstring;
}.

(** The object literal built from a provider. *)
Definition info_of (provider : Provider) : ProviderInfo :=
  {| info_name := name provider;
     info_staticModels := staticModels provider;
     info_getApiKeyLink := getApiKeyLink provider;
     info_labelForGetApiKey := labelForGetApiKey provider;
     info_icon := icon provider |}.

(** What the loader asks of an [LLMManager]. *)
Record Manager := {
  getAllProviders : list Provider;
  getDefaultProvider : Provider;
}.

(** The two module variables. *)
Record Cache := {
  cachedProviders : option (list ProviderInfo);
  cachedDefaultProvider : option ProviderInfo;
}.

Definition empty : Cache :=
  {| cachedProviders := None; cachedDefaultProvider := None |}.

(** [getProviderInfo(llmManager)]: the answer and the cache afterwards. *)
Definition getProviderInfo (llmManager : Manager) (c : Cache)
  : (list ProviderInfo * ProviderInfo) * Cache :=
  let providers :=
    match cachedProviders c with
    | Some ps => ps
    | None => List.map info_of (getAllProviders llmManager)
    end in
  let defaultProvider :=
    match cachedDefaultProvider c with
    | Some d => d
    | None => info_of (getDefaultProvider llmManager)
    end in
  ((providers, defaultProvider),
   {| cachedProviders := Some providers; cachedDefaultProvider := Some defaultProvider |}).

(** The answers to a sequence of requests, each with its own manager. *)
Fixpoint serve (managers : list Manager) (c : Cache)
  : list (list ProviderInfo * ProviderInfo) :=
  match managers with
  | [] => []
  | m :: managers' =>
      fst (getProviderInfo m c) :: serve managers' (snd (getProviderInfo m c))
  end.

End ProviderCache.

(** ** Template files from a release archive (api.github-template.ts) *)

Module GithubTemplate.

(** An entry of [zip.files], in key order. *)
Record ZipEntry := {
  filename : jsstring;
  dir : bool;
  content : jsstring;
}.

Record TemplateFile := {
  name : jsstring;
  path : jsstring;
  file_content : jsstring;
}.

(** One step of the [zip.forEach] that looks for the root folder. *)
Definition root_step (rootFolderName relativePath : jsstring) : jsstring :=
  if negb (truthy_str rootFolderName) && includes [47%N] relativePath
  then default [] (head (split 47 relativePath))
  else rootFolderName.

Definition rootFolderName (entries : list ZipEntry) : jsstring :=
  fold_left (fun root e => root_step root (filename e)) entries [].

(** [normalizedPath] *)
Definition normalize (root file : jsstring) : jsstring :=
  if truthy_str root && startsWith (root ++ [47%N]) file
  then drop (List.length root + 1) file
  else file.

(** The callback mapped over [Object.keys(zip.files)]. *)
Definition extract (root : jsstring) (zipEntry : ZipEntry) : option TemplateFile :=
  if dir zipEntry then None
  else if eqb_str (filename zipEntry) root then None
  else
    let normalizedPath := normalize root (filename zipEntry) in
    Some {| name := or_str (last (split 47 normalizedPath)) [];
            path := normalizedPath;
            file_content := content zipEntry |}.

(** [fetchRepoContentsZip], from the loaded archive on. *)
Definition fileList (entries : list ZipEntry) : list TemplateFile :=
  omap (extract (rootFolderName entries)) entries.

(** [fileList.filter((file) => !file.path.startsWith('.git'))] *)
Definition filteredFiles (entries : list ZipEntry) : list TemplateFile :=
  List.filter (fun file => negb (startsWith (str ".git") (path file))) (fileList entries).

End GithubTemplate.

(** ** API keys from cookie and environment
       (api.export-api-keys.ts, api.check-env-key.ts) *)

Module ApiKeys.

Import ProviderCache.

(** The property names every plain object inherits. *)
Definition inherited_names : list jsstring :=
  [ str "constructor"; str "__defineGetter__"; str "__defineSetter__";
    str "hasOwnProperty"; str "__lookupGetter__"; str "__lookupSetter__";
    str "isPrototypeOf"; str "propertyIsEnumerable"; str "toString";
    str "valueOf"; str "__proto__"; str "toLocaleString" ].

Definition inherited (k : jsstring) : bool :=
  existsb (eqb_str k) inherited_names.

(** Whether [obj[k]] is truthy, for an object of string properties: an own
    property decides, else an inherited one is an object or a function. *)
Definition has_truthy (obj : gmap jsstring jsstring) (k : jsstring) : bool :=
  match obj !! k with
  | Some v => truthy_str v
  | None => inherited k
  end.

(** [a || b] on two possibly missing strings. *)
Definition first_truthy (a b : option jsstring) : option jsstring :=
  match a with
  | Some (c :: r) => Some (c :: r)
  | _ => b
  end.

Definition truthy_opt (a : option jsstring) : bool :=
  match a with
  | Some (_ :: _) => true
  | _ => false
  end.

Section Loaders.

(** [process.env[k]] and [llmManager.env[k]], strings when they are there. *)
Variable process_env : jsstring -> option jsstring.
Variable manager_env : jsstring -> option jsstring.

(** The body of the [for] loop of the export loader. *)
Definition export_step (apiKeys : gmap jsstring jsstring) (provider : Provider)
  : gmap jsstring jsstring :=
  match apiTokenKey provider with
  | Some (c :: r) =>
      let envVarName := c :: r in
      if has_truthy apiKeys (name provider) then apiKeys
      else
        match first_truthy (process_env envVarName) (manager_env envVarName) with
        | Some (c' :: r') => <[name provider := c' :: r']> apiKeys
        | _ => apiKeys
        end
  | _ => apiKeys
  end.

(** The object the export loader answers with. *)
Definition export_keys (apiKeysFromCookie : gmap jsstring jsstring)
    (providers : list Provider) : gmap jsstring jsstring :=
  fold_left export_step providers apiKeysFromCookie.

(** [isSet] of the check loader; [provider] is the query parameter and
    [getProvider] the manager's lookup. *)
Definition isSet (getProvider : jsstring -> option Provider)
    (apiKeys : gmap jsstring jsstring) (provider : option jsstring) : bool :=
  match provider with
  | Some (c :: r) =>
      match getProvider (c :: r) with
      | Some providerInstance =>
          match apiTokenKey providerInstance with
          | Some (c' :: r') =>
              let envVarName := c' :: r' in
              has_truthy apiKeys (c :: r)
              || truthy_opt (process_env envVarName)
              || truthy_opt (manager_env envVarName)
          | _ => false
          end
      | None => false
      end
  | _ => false
  end.

End Loaders.

End ApiKeys.

(** ** Cookie entries of a header without escapes *)

Module CookiePlain.

(** The entry of a trimmed item, its name and value taken as they are. *)
Definition plain_entry (item : jsstring) : option (jsstring * jsstring) :=
  if truthy_str (Cookies.before_eq item)
  then Some (trim (Cookies.before_eq item), trim (Cookies.after_eq item))
  else None.

Definition plain_entries (cookieHeader : jsstring) : list (jsstring * jsstring) :=
  omap plain_entry (List.map trim (split 59 cookieHeader)).

End CookiePlain.

(** ** Reports with counts that are not negative *)

Module UsageMore.

Import Usage.

Definition nonneg (n : option count) : Prop :=
  match n with
  | Some (number z) => (0 <= z)%Z
  | _ => True
  end.

(** Every count of the report that is a number is at least 0. *)
Definition nonneg_report (usage : option LanguageModelUsage) : Prop :=
  match usage with
  | Some u =>
      nonneg (promptTokens u) /\ nonneg (inputTokens u)
      /\ nonneg (completionTokens u) /\ nonneg (outputTokens u)
      /\ nonneg (totalTokens u)
  | None => True
  end.

(** The report has no [totalTokens] key. *)
Definition without_total (usage : option LanguageModelUsage) : Prop :=
  match usage with
  | Some u => totalTokens u = None
  | None => True
  end.

End UsageMore.

(** ** The generation calls of a run *)

Module ChatMore.

Import Chat.

Definition is_generation (c : ModelCall) : bool :=
  match c with
  | call_streamText _ => true
  | _ => false
  end.

(** [messageSliceId] for a processed conversation. *)
Definition slice_of (processed : list UIMessage) : nat :=
  if (3 <? List.length processed)%nat then (List.length processed - 3)%nat else 0%nat.

Section Calls.

Variable MAX_RESPONSE_SEGMENTS : nat.
Variable CONTINUE_PROMPT : jsstring.
Variable convertToCoreMessages : list UIMessage -> list CoreMessage.
Variable extractPropertiesFromMessage : CoreMessage -> jsstring * jsstring.
Variable processToolInvocations : list UIMessage -> list UIMessage.
Variable getFilePaths : FileMap -> list jsstring.
Variable fresh_switches : nat.

(** The arguments of the first generation call. *)
Definition first_args (cl : Closure) : StreamTextArgs :=
  {| st_messages := convertToCoreMessages (processedMessages cl);
     st_contextFiles := filteredFiles cl;
     st_summary := chat_summary cl;
     st_messageSliceId := messageSliceId cl |}.

(** The arguments of the call that continues the segment finished by [f],
    [m] being the converted last user message. *)
Definition continuation_args (cl : Closure) (f : Finish) (m : CoreMessage)
  : StreamTextArgs :=
  {| st_messages :=
       convertToCoreMessages (processedMessages cl)
       ++ [ {| role := assistant; content := text f |};
            {| role := user;
               content := directive CONTINUE_PROMPT
                            (fst (extractPropertiesFromMessage m))
                            (snd (extractPropertiesFromMessage m)) |} ];
     st_contextFiles := filteredFiles cl;
     st_summary := chat_summary cl;
     st_messageSliceId := messageSliceId cl |}.

(** The segments cut short one after the other, from the first on. *)
Fixpoint leading_length (fins : list Finish) : list Finish :=
  match fins with
  | f :: fins' => if is_length f then f :: leading_length fins' else []
  | [] => []
  end.

(** The converted last user message of the processed conversation. *)
Definition last_user_core (cl : Closure) : option CoreMessage :=
  match last (List.filter (fun x => role_eqb (ui_role x) user) (processedMessages cl)) with
  | Some u => head (convertToCoreMessages [u])
  | None => None
  end.

(** One continuation for each of the leading segments cut short, when the
    counter is under the budget and there is a user message to read the
    model from. *)
Definition continuations (cl : Closure) (fins : list Finish) (n : nat)
  : list ModelCall :=
  if (MAX_RESPONSE_SEGMENTS <=? n)%nat then []
  else match last_user_core cl with
       | Some m =>
           List.map (fun f => call_streamText (continuation_args cl f m))
             (leading_length fins)
       | None => []
       end.

(** What the generation works with, when the run gets that far: the
    processed conversation and, after an optimization step, the selected
    files and the summary. *)
Definition generation_closure (req : ChatRequest) (env : Env) : option Closure :=
  let processed := processToolInvocations (messages req) in
  if optimizing getFilePaths req then
    match summaryReply env, selectReply env with
    | Normal r, Normal c =>
        match result c with
        | Some selected =>
            Some {| processedMessages := processed;
                    filteredFiles := Some selected;
                    chat_summary := Some (result r);
                    messageSliceId := slice_of processed |}
        | None => None
        end
    | _, _ => None
    end
  else Some {| processedMessages := processed;
               filteredFiles := None;
               chat_summary := None;
               messageSliceId := slice_of processed |}.

(** The generation calls of a run, in order. *)
Definition generation_calls_of (req : ChatRequest) (env : Env) : list ModelCall :=
  match generation_closure req env with
  | Some cl =>
      call_streamText (first_args cl) :: continuations cl (segments env) fresh_switches
  | None => []
  end.

End Calls.

End ChatMore.

(** ** More sample values *)

Module Fixtures.

Definition release : list GithubTemplate.ZipEntry :=
  [ {| GithubTemplate.filename := str "acme-starter-1a2b3c/";
       GithubTemplate.dir := true; GithubTemplate.content := [] |};
    {| GithubTemplate.filename := str "acme-starter-1a2b3c/.gitignore";
       GithubTemplate.dir := false; GithubTemplate.content := str "node_modules" |};
    {| GithubTemplate.filename := str "acme-starter-1a2b3c/src/";
       GithubTemplate.dir := true; GithubTemplate.content := [] |};
    {| GithubTemplate.filename := str "acme-starter-1a2b3c/src/main.ts";
       GithubTemplate.dir := false; GithubTemplate.content := str "export {}" |};
    {| GithubTemplate.filename := str "acme-starter-1a2b3c/package.json";
       GithubTemplate.dir := false; GithubTemplate.content := str "{}" |} ].

Definition openai : ProviderCache.Provider :=
  {| ProviderCache.name := str "OpenAI";
     ProviderCache.staticModels := [str "gpt-4o"];
     ProviderCache.getApiKeyLink := Some (str "https://platform.openai.com/api-keys");
     ProviderCache.labelForGetApiKey := None;
     ProviderCache.icon := None;
     ProviderCache.apiTokenKey := Some (str "OPENAI_API_KEY") |}.

Definition anthropic : ProviderCache.Provider :=
  {| ProviderCache.name := str "Anthropic";
     ProviderCache.staticModels := [str "claude-3-5-sonnet-latest"];
     ProviderCache.getApiKeyLink := None;
     ProviderCache.labelForGetApiKey := None;
     ProviderCache.icon := None;
     ProviderCache.apiTokenKey := Some (str "ANTHROPIC_API_KEY") |}.

Definition ollama : ProviderCache.Provider :=
  {| ProviderCache.name := str "Ollama";
     ProviderCache.staticModels := [];
     ProviderCache.getApiKeyLink := None;
     ProviderCache.labelForGetApiKey := None;
     ProviderCache.icon := None;
     ProviderCache.apiTokenKey := None |}.

Definition registry : list ProviderCache.Provider := [openai; anthropic; ollama].

Definition getProvider (n : jsstring) : option ProviderCache.Provider :=
  List.find (fun p => eqb_str (ProviderCache.name p) n) registry.

Definition process_env (k : jsstring) : option jsstring :=
  if eqb_str k (str "ANTHROPIC_API_KEY") then Some (str "sk-ant-env") else None.

Definition manager_env (k : jsstring) : option jsstring := None.

Definition cookie_keys : gmap jsstring jsstring :=
  <[str "OpenAI" := str "sk-cookie"]> (<[str "Legacy" := str "k"]> ∅).

(** A run whose sub-calls report no total of their own. *)
Definition untotalled : Chat.Env :=
  {| Chat.summaryReply := Normal {| Chat.result := str "A shop in Remix.";
                                    Chat.resp_usage := Sample.usage_v4 120 30 |};
     Chat.selectReply := Normal {| Chat.result := Some Sample.project;
                                   Chat.resp_usage := None |};
     Chat.segments := [Sample.cut_short (str "<boltArtifact") (Sample.usage_v4 900 4096);
                       Sample.stopped (str "</boltArtifact>") (Sample.usage_v4 5000 700)] |}.

(** A segment reported in the shape of the SDK's version 5, its total
    left [undefined]. *)
Definition total_undefined : Chat.Env :=
  {| Chat.summaryReply := Throw TypeError;
     Chat.selectReply := Throw TypeError;
     Chat.segments :=
       [Sample.stopped (str "done")
          (Some {| Usage.promptTokens := None;
                   Usage.inputTokens := Some (Usage.number 5);
                   Usage.completionTokens := None;
                   Usage.outputTokens := Some (Usage.number 7);
                   Usage.totalTokens := Some Usage.undefined |})] |}.

Definition summary_fails : Chat.Env :=
  {| Chat.summaryReply := Throw (Error (str "429 Too Many Requests"));
     Chat.selectReply := Throw TypeError;
     Chat.segments := [Sample.stopped (str "never") None] |}.

Definition stream_parts : list Consumer.Part :=
  [Consumer.part_other; Consumer.part_other;
   Consumer.part_error (Some (str "Invalid JSON response")); Consumer.part_other].

Definition odd_calls : list Chat.ToolCall :=
  [ {| Chat.toolCallId := str "call_1"; Chat.toolName := str "search";
       Chat.input := Str []; Chat.args := Obj (prop (str "q") (Str (str "x")) no_props) |};
    {| Chat.toolCallId := str "call_2"; Chat.toolName := str "ping";
       Chat.input := Null; Chat.args := Num 0 |} ].

End Fixtures.

(** * Properties *)

(** ** Strings *)

Lemma startsWith_app (p s : jsstring) :
  startsWith p s = true <-> exists post, s = p ++ post.
Proof.
  revert s. induction p as [|a p IH]; intros s; simpl.
  - split; [intros _; exists s; reflexivity | reflexivity].
  - destruct s as [|b s]; simpl.
    + split; [discriminate | intros [post H]; discriminate].
    + rewrite andb_true_iff, N.eqb_eq, IH. split.
      * intros [-> [post ->]]. exists post. reflexivity.
      * intros [post H]. injection H as -> ->. eauto.
Qed.

Lemma includes_app (p s : jsstring) :
  includes p s = true <-> exists pre post, s = pre ++ p ++ post.
Proof.
  induction s as [|b s IH].
  - simpl. rewrite orb_false_r, startsWith_app. split.
    + intros [post H]. exists [], post. exact H.
    + intros [pre [post H]]. destruct pre as [|x pre]; [eauto | discriminate].
  - cbn [includes]. rewrite orb_true_iff, startsWith_app, IH. split.
    + intros [[post H] | [pre [post H]]].
      * exists [], post. exact H.
      * exists (b :: pre), post. rewrite H. reflexivity.
    + intros [pre [post H]]. destruct pre as [|x pre].
      * left. exists post. exact H.
      * right. injection H as -> ->. eauto.
Qed.

(** A string that includes [a ++ b] includes [b]. *)
Lemma includes_suffix (a b s : jsstring) :
  includes (a ++ b) s = true -> includes b s = true.
Proof.
  rewrite !includes_app. intros [pre [post ->]].
  exists (pre ++ a), post. rewrite <- !app_assoc. reflexivity.
Qed.

Lemma split_not_nil (c : N) (s : jsstring) : split c s <> [].
Proof.
  destruct s as [|x s]; simpl; [discriminate|].
  destruct (x =? c)%N; [discriminate|].
  destruct (split c s); discriminate.
Qed.

(** Joining the pieces of a split gives the string back. *)
Lemma join_split (c : N) (s : jsstring) : join c (split c s) = s.
Proof.
  induction s as [|x s IH]; [reflexivity|].
  cbn [split]. destruct (x =? c)%N eqn:E.
  - apply N.eqb_eq in E. subst x.
    pose proof (split_not_nil c s) as Hne.
    destruct (split c s) as [|h t] eqn:Hs; [contradiction|].
    cbn [join app]. cbn [join] in IH. rewrite IH. reflexivity.
  - pose proof (split_not_nil c s) as Hne.
    destruct (split c s) as [|h t] eqn:Hs; [contradiction|].
    destruct t as [|h' t]; cbn [join] in *.
    + rewrite IH. reflexivity.
    + cbn [app]. rewrite IH. reflexivity.
Qed.

(** ** Cookies *)

Module CookieFacts.

Import Cookies.

(** Destructuring [item.split('=')] cuts the item at its first '=' and
    joining the rest back restores what follows it. *)
Lemma split_eq_cut (item : jsstring) :
  exists rest, split 61 item = before_eq item :: rest
               /\ join 61 rest = after_eq item.
Proof.
  induction item as [|x item [rest [Hs Hj]]].
  - exists []. split; reflexivity.
  - cbn [split before_eq after_eq]. destruct (x =? 61)%N.
    + exists (split 61 item). split; [reflexivity | apply join_split].
    + rewrite Hs. exists rest. split; [reflexivity | exact Hj].
Qed.

(** [before_eq] and [after_eq] cut an item at its first '='. *)
Lemma cut_at_first_eq (item : jsstring) :
  ~ In 61%N (before_eq item)
  /\ (item = before_eq item ++ 61%N :: after_eq item
      \/ (~ In 61%N item /\ before_eq item = item /\ after_eq item = [])).
Proof.
  induction item as [|x item [Hn IH]].
  - split; [intros [] | right; split; [intros [] | split; reflexivity]].
  - cbn [before_eq after_eq]. destruct (N.eqb_spec x 61) as [->|Hx].
    + split; [intros [] | left; reflexivity].
    + split.
      * intros [H|H]; [exact (Hx H) | exact (Hn H)].
      * destruct IH as [IH | (Hi & Hb & Ha)].
        -- left. cbn [app]. f_equal. exact IH.
        -- right. split; [|split; [f_equal; exact Hb | exact Ha]].
           intros [H|H]; [exact (Hx H) | exact (Hi H)].
Qed.

Lemma parseItem_entry (m : gmap jsstring jsstring) (item : jsstring) :
  parseItem m item = try! e := entry_of item in Normal (add_entry m e).
Proof.
  unfold parseItem, entry_of.
  destruct (split_eq_cut item) as [rest [-> Hj]]. rewrite Hj.
  destruct (truthy_str (before_eq item)); [|reflexivity].
  destruct (decodeURIComponent (trim (before_eq item))); [|reflexivity].
  simpl. destruct (decodeURIComponent (trim (after_eq item))); reflexivity.
Qed.

Lemma forEach_entries (items : list jsstring) (m : gmap jsstring jsstring) :
  forEach items m = try! es := entries_of items in Normal (assign_all m es).
Proof.
  revert m. induction items as [|item items IH]; intros m; [reflexivity|].
  cbn [forEach entries_of]. rewrite parseItem_entry.
  destruct (entry_of item) as [e|x]; [|reflexivity].
  cbn [JS.bind]. rewrite IH.
  destruct (entries_of items) as [es|x]; [|reflexivity].
  destruct e as [[k v]|]; reflexivity.
Qed.

Lemma eqb_str_true (a b : jsstring) : eqb_str a b = true <-> a = b.
Proof. unfold eqb_str. apply bool_decide_eq_true. Qed.

Lemma eqb_str_false (a b : jsstring) : eqb_str a b = false <-> a <> b.
Proof. unfold eqb_str. apply bool_decide_eq_false. Qed.

Lemma last_value_snoc (k : jsstring) (es : list (jsstring * jsstring))
    (k' v : jsstring) :
  last_value k (es ++ [(k', v)]) =
  if eqb_str k' k then Some v else last_value k es.
Proof.
  unfold last_value. rewrite List.filter_app. cbn [List.filter fst].
  destruct (eqb_str k' k).
  - rewrite last_snoc. reflexivity.
  - rewrite app_nil_r. reflexivity.
Qed.

(** Looking a name up after the assignments gives the last value assigned
    to it; the key [__proto__] never becomes an entry. *)
Lemma lookup_assign_all (es : list (jsstring * jsstring)) (k : jsstring) :
  assign_all ∅ es !! k =
  if eqb_str k proto_key then None else last_value k es.
Proof.
  induction es as [|[k' v] es IH] using rev_ind.
  - unfold assign_all. cbn [fold_left]. rewrite lookup_empty.
    destruct (eqb_str k proto_key); reflexivity.
  - unfold assign_all in *. rewrite fold_left_app. cbn [fold_left fst snd].
    rewrite last_value_snoc.
    set (m0 := fold_left _ es ∅) in *. unfold assign.
    destruct (eqb_str k' proto_key) eqn:Hp.
    + rewrite IH. destruct (eqb_str k proto_key) eqn:Hk; [reflexivity|].
      destruct (eqb_str k' k) eqn:Hkk; [|reflexivity].
      apply eqb_str_true in Hp, Hkk. apply eqb_str_false in Hk. congruence.
    + destruct (eqb_str k' k) eqn:Hkk.
      * apply eqb_str_true in Hkk. subst k'. rewrite Hp.
        apply lookup_insert_eq.
      * apply eqb_str_false in Hkk. rewrite lookup_insert_ne by exact Hkk.
        exact IH.
Qed.

End CookieFacts.

Module CookieEntries.

Import Cookies.

Lemma entry_of_items (item : jsstring) :
  entry_of item =
    if malformed item then Throw URIError
    else Normal (if truthy_str (before_eq item)
                 then Some (decoded (trim (before_eq item)),
                            decoded (trim (after_eq item)))
                 else None).
Proof.
  unfold entry_of, malformed, well_formed, decoded.
  destruct (truthy_str (before_eq item)); [|reflexivity].
  unfold decodeURIComponent.
  destruct (escapes (trim (before_eq item))) as [tn|]; [|reflexivity].
  destruct (utf8 tn); [|reflexivity].
  destruct (escapes (trim (after_eq item))) as [tv|]; [|reflexivity].
  destruct (utf8 tv); reflexivity.
Qed.

Lemma entries_of_items (items : list jsstring) :
  entries_of items =
    if existsb malformed items then Throw URIError else Normal (entries items).
Proof.
  induction items as [|item items IH]; [reflexivity|].
  cbn [entries_of existsb]. rewrite entry_of_items, IH. unfold entries.
  cbn [omap list_omap].
  destruct (malformed item); [reflexivity|]. cbn [orb JS.bind].
  destruct (existsb malformed items); [reflexivity|]. cbn [JS.bind].
  destruct (truthy_str (before_eq item)); reflexivity.
Qed.

End CookieEntries.

(** C10 (amended). parseCookies throws URIError exactly when some trimmed
    ';'-separated item has a non-empty text before its first '=' and that
    name or the text after that first '=', trimmed, is a malformed
    percent-encoding; an item whose name is empty is skipped without being
    decoded.  On every other header it returns a map in which every name
    other than [__proto__] has the value of the last entry of that name,
    the entries being, left to right, one for each trimmed item with a
    non-empty name: the decoded trimmed name with the decoded trimmed text
    after the first '='.  That text keeps every further '=', and is empty
    when the item has no '='. *)
Theorem parseCookies_last_entry :
  (forall cookieHeader : jsstring,
      let items := List.map trim (split 59 cookieHeader) in
      if existsb Cookies.malformed items
      then Cookies.parseCookies cookieHeader = Throw URIError
      else exists m : gmap jsstring jsstring,
             Cookies.parseCookies cookieHeader = Normal m
             /\ forall k : jsstring,
                  m !! k = if eqb_str k Cookies.proto_key then None
                           else Cookies.last_value k (Cookies.entries items))
  /\ (forall item : jsstring,
        ~ In 61%N (Cookies.before_eq item)
        /\ (item = Cookies.before_eq item ++ 61%N :: Cookies.after_eq item
            \/ (~ In 61%N item
                /\ Cookies.before_eq item = item /\ Cookies.after_eq item = [])))
  /\ Cookies.decoded (trim []) = [].
Proof.
  split; [|split; [exact CookieFacts.cut_at_first_eq | reflexivity]].
  intros cookieHeader. cbv zeta. unfold Cookies.parseCookies.
  rewrite CookieFacts.forEach_entries, CookieEntries.entries_of_items.
  destruct (existsb Cookies.malformed _); [reflexivity|].
  eexists. split; [reflexivity|].
  intros k. apply CookieFacts.lookup_assign_all.
Qed.

(** C10 (as stated) fails: the header [a=%] makes parseCookies throw. *)
Lemma parseCookies_not_total :
  ~ (forall cookieHeader : jsstring,
       exists m : gmap jsstring jsstring,
         Cookies.parseCookies cookieHeader = Normal m).
Proof.
  intros H. destruct (H (str "a=%")) as [m Hm].
  vm_compute in Hm. discriminate Hm.
Qed.

(** Escapes that are well formed, and escapes that are not: no hexadecimal
    digits, a lone '%', a UTF-8 sequence cut off. *)
Example well_formed_escapes :
  Cookies.well_formed (str "%7B%22a%22%7D") = true
  /\ Cookies.well_formed (str "%zz") = false
  /\ Cookies.well_formed (str "%") = false
  /\ Cookies.well_formed (str "%C3") = false.
Proof. repeat split; vm_compute; reflexivity. Qed.

(** An item with an empty name is skipped before anything is decoded. *)
Example parseCookies_skips_nameless :
  Cookies.parseCookies (str "=%zz") = Normal ∅
  /\ Cookies.parseCookies (str "a=1; =%zz; %zz") = Throw URIError.
Proof. split; vm_compute; reflexivity. Qed.

Example parseCookies_trims_value :
  Cookies.parseCookies (str "k= v=1 ; k2") =
  Normal (<[str "k2" := []]> (<[str "k" := str "v=1"]> ∅)).
Proof. vm_compute. reflexivity. Qed.

(** ** In-stream error classification *)

Module StreamErrorFacts.

Import StreamError.

(** [onError] returns the message of the bucket it reaches. *)
Lemma onError_bucket (m : option jsstring) :
  onError m = render (bucket m) (or_str m (str "Unknown error")).
Proof.
  unfold onError, bucket. cbv zeta.
  repeat match goal with
         | |- context [if ?c then _ else _] => destruct c; try reflexivity
         end.
Qed.

Lemma rate_limit_has_limit (msg : jsstring) :
  includes (str "rate limit") msg = true -> includes (str "limit") msg = true.
Proof. apply (includes_suffix (str "rate ") (str "limit")). Qed.

Lemma or_str_includes (p msg : jsstring) :
  includes p msg = true -> p <> [] ->
  or_str (Some msg) (str "Unknown error") = msg.
Proof.
  intros H Hp. destruct msg as [|c r]; [|reflexivity].
  destruct p; [contradiction | discriminate H].
Qed.

End StreamErrorFacts.

(** Where a message that contains 'rate limit' ends up: never in the
    Unknown pass-through nor at the later Network check, whatever
    later-checked substrings it also contains; at the rate-limit check, and
    answered with the rate-limit message, exactly when none of the checks
    that stand before it matches: 'model' with 'not found', 'Invalid JSON
    response', 'API key', 'unauthorized', 'authentication', 'token'. *)
Lemma rate_limit_classification (msg : jsstring) :
  includes (str "rate limit") msg = true ->
  StreamError.bucket (Some msg) <> StreamError.Unknown
  /\ StreamError.bucket (Some msg) <> StreamError.Network
  /\ (StreamError.bucket (Some msg) = StreamError.RateLimit
      <-> StreamError.earlier_match msg = false)
  /\ (StreamError.onError (Some msg) = StreamError.MSG_RATE
      <-> StreamError.earlier_match msg = false).
Proof.
  intros H.
  pose proof (StreamErrorFacts.rate_limit_has_limit msg H) as Hl.
  assert (Hm : or_str (Some msg) (str "Unknown error") = msg)
    by (apply (StreamErrorFacts.or_str_includes _ _ H); discriminate).
  rewrite StreamErrorFacts.onError_bucket, Hm.
  unfold StreamError.bucket, StreamError.earlier_match. cbv zeta.
  rewrite Hm, H, Hl.
  destruct (includes (str "model") msg), (includes (str "not found") msg),
    (includes (str "Invalid JSON response") msg), (includes (str "API key") msg),
    (includes (str "unauthorized") msg), (includes (str "authentication") msg),
    (includes (str "token") msg);
    cbn [andb orb StreamError.render];
    (split; [discriminate|]); (split; [discriminate|]);
    split; split; intros E;
    first [reflexivity | discriminate E | exfalso; vm_compute in E; discriminate E].
Qed.

Lemma rate_limit_classification_witness :
  StreamError.onError (Some (str "provider says: rate limit, network timeout"))
  = StreamError.MSG_RATE.
Proof.
  apply (proj2 (proj2 (proj2
    (rate_limit_classification (str "provider says: rate limit, network timeout")
       ltac:(vm_compute; reflexivity))))).
  vm_compute. reflexivity.
Defined.

(** C6. The message 'rate limit reached for tokens per minute' contains
    'rate limit'.  The classifier stops at the token-limit check, which
    stands before the rate-limit one, and answers with the token-limit
    message, not with the rate-limit message. *)
Theorem rate_limit_misclassified :
  let msg := str "rate limit reached for tokens per minute" in
  includes (str "rate limit") msg = true
  /\ StreamError.bucket (Some msg) = StreamError.TokenLimit
  /\ StreamError.onError (Some msg) = StreamError.MSG_TOKEN
  /\ StreamError.onError (Some msg) <> StreamError.MSG_RATE.
Proof. cbv zeta. repeat split; vm_compute; [reflexivity.. | discriminate]. Qed.

(** Not every message with 'rate limit' is answered with the rate-limit
    message. *)
Lemma rate_limit_not_always :
  ~ (forall msg : jsstring,
       includes (str "rate limit") msg = true ->
       StreamError.onError (Some msg) = StreamError.MSG_RATE).
Proof.
  intros H. specialize (H (str "rate limit reached for tokens per minute")).
  vm_compute in H. specialize (H eq_refl). discriminate H.
Qed.

(** ** The response of the action *)

Section ActionFacts.

Import Chat Session.

Variable MAX_RESPONSE_SEGMENTS : nat.
Variable CONTINUE_PROMPT : jsstring.
Variable WORK_DIR : jsstring.
Variable convertToCoreMessages : list UIMessage -> list CoreMessage.
Variable extractPropertiesFromMessage : CoreMessage -> jsstring * jsstring.
Variable processToolInvocations : list UIMessage -> list UIMessage.
Variable getFilePaths : FileMap -> list jsstring.
Variable fresh_switches : nat.
Variable Json_value : Type.
Variable JSON_parse : jsstring -> Completion Json_value.
Variable engine_message : Exn -> option jsstring.

Local Notation chatAction :=
  (Session.chatAction MAX_RESPONSE_SEGMENTS CONTINUE_PROMPT WORK_DIR
     convertToCoreMessages extractPropertiesFromMessage processToolInvocations
     getFilePaths fresh_switches Json_value JSON_parse engine_message).
Local Notation run :=
  (Chat.run MAX_RESPONSE_SEGMENTS CONTINUE_PROMPT WORK_DIR convertToCoreMessages
     extractPropertiesFromMessage processToolInvocations getFilePaths fresh_switches).
Local Notation cookie_setting := (Http.cookie_setting Json_value JSON_parse).
Local Notation message_of := (Session.message_of engine_message).

(** Failures of the statements before the [try] leave the action as they
    are. *)
Lemma chatAction_json_throws (e : Exn) (cookieHeader : option jsstring)
    (setup : option Http.Thrown) (env : Env) :
  chatAction (Throw e) cookieHeader setup env = Throw e.
Proof. reflexivity. Qed.

Lemma chatAction_cookie_throws (req : ChatRequest) (e : Exn)
    (cookieHeader : option jsstring) (setup : option Http.Thrown) (env : Env) :
  cookie_setting cookieHeader (str "apiKeys") = Throw e ->
  chatAction (Normal req) cookieHeader setup env = Throw e.
Proof.
  intros H. unfold Session.chatAction, Http.chatAction. cbn [JS.bind].
  rewrite H. reflexivity.
Qed.

(** A stream of events only has no error chunk. *)
Lemma error_chunks_data (evs : list Event) :
  error_chunks (List.map chunk_data evs) = [].
Proof. induction evs as [|e evs IH]; [reflexivity | exact IH]. Qed.

Lemma error_chunks_app (a b : list Chunk) :
  error_chunks (a ++ b) = error_chunks a ++ error_chunks b.
Proof.
  unfold error_chunks. induction a as [|c a IH]; [reflexivity|].
  cbn [app omap list_omap]. destruct c; cbn; rewrite IH; reflexivity.
Qed.


End ActionFacts.



(** A statusCode beyond 65535 is reduced: the response has status 200
    while its body says 65736. *)
Example chatAction_status_reduced :
  exists b,
    Sample.chatAction (Normal Sample.plain_request) None
      (Some {| Http.message := None; Http.statusCode := Some 65736%Z;
               Http.isRetryable := Undefined; Http.provider := None |})
      Sample.two_segments
    = Normal {| Http.payload := Http.Json b; Http.status := 200;
                Http.statusText := str "Error";
                Http.contentType := str "application/json" |}
    /\ Http.body_statusCode b = 65736%Z.
Proof. eexists. split; vm_compute; reflexivity. Qed.

(** A request whose summary call is answered '429 Too Many Requests' gets
    status 200, and a stream that ends with the rate-limit text. *)
Example chatAction_error_in_band :
  exists chunks,
    Sample.chatAction (Normal Sample.optimized_request) None None Fixtures.summary_fails
    = Normal {| Http.payload := Http.EventStream chunks; Http.status := 200;
                Http.statusText := [];
                Http.contentType := str "text/event-stream; charset=utf-8" |}
    /\ Session.error_chunks chunks = [StreamError.MSG_RATE]
    /\ last chunks = Some (Session.chunk_error StreamError.MSG_RATE).
Proof. eexists. split; [|split]; vm_compute; reflexivity. Qed.

(** ** The orchestration *)

Section OrchestratorFacts.

Import Usage Chat.

Variable MAX_RESPONSE_SEGMENTS : nat.
Variable CONTINUE_PROMPT : jsstring.
Variable WORK_DIR : jsstring.
Variable convertToCoreMessages : list UIMessage -> list CoreMessage.
Variable extractPropertiesFromMessage : CoreMessage -> jsstring * jsstring.
Variable processToolInvocations : list UIMessage -> list UIMessage.
Variable getFilePaths : FileMap -> list jsstring.
Variable fresh_switches : nat.

Local Notation onFinish :=
  (Chat.onFinish MAX_RESPONSE_SEGMENTS CONTINUE_PROMPT convertToCoreMessages
     extractPropertiesFromMessage).
Local Notation drive :=
  (Chat.drive MAX_RESPONSE_SEGMENTS CONTINUE_PROMPT convertToCoreMessages
     extractPropertiesFromMessage).
Local Notation optimize := (Chat.optimize WORK_DIR convertToCoreMessages).
Local Notation optimizing := (Chat.optimizing getFilePaths).
Local Notation execute :=
  (Chat.execute MAX_RESPONSE_SEGMENTS CONTINUE_PROMPT WORK_DIR convertToCoreMessages
     extractPropertiesFromMessage processToolInvocations getFilePaths).
Local Notation run :=
  (Chat.run MAX_RESPONSE_SEGMENTS CONTINUE_PROMPT WORK_DIR convertToCoreMessages
     extractPropertiesFromMessage processToolInvocations getFilePaths fresh_switches).
Local Notation directive := (Chat.directive CONTINUE_PROMPT).
Local Notation context_reports := (Chat.context_reports getFilePaths).

(** *** Composition of kept properties *)

Lemma preserves_ret {A} (I : State -> Prop) (a : A) : preserves I (ret a).
Proof. intros s H. exact H. Qed.

Lemma preserves_throw {A} (I : State -> Prop) (e : Exn) : preserves I (@throw A e).
Proof. intros s H. exact H. Qed.

Lemma preserves_await {A} (I : State -> Prop) (c : Completion A) :
  preserves I (await c).
Proof. intros s H. exact H. Qed.

Lemma preserves_get {A} (I : State -> Prop) (f : State -> A) : preserves I (get f).
Proof. intros s H. exact H. Qed.

Lemma preserves_bind {A B} (I : State -> Prop) (m : M A) (k : A -> M B) :
  preserves I m -> (forall a, preserves I (k a)) -> preserves I (bindM m k).
Proof.
  intros Hm Hk s H. unfold bindM. specialize (Hm s H).
  destruct (m s) as [s' [a|e]]; cbn [fst] in *; [apply Hk; exact Hm | exact Hm].
Qed.

(** The steps of a computation, down to the primitives that touch the
    state. *)
Ltac kept prim :=
  repeat first
    [ apply preserves_ret | apply preserves_throw | apply preserves_await
    | apply preserves_get | prim
    | apply preserves_bind; [|intros ?]
    | match goal with
      | |- preserves _ (if ?c then _ else _) => destruct c
      | |- preserves _ (match ?c with _ => _ end) => destruct c
      end ].

Lemma onFinish_preserves (I : State -> Prop) (cl : Closure) (f : Finish) :
  (forall u, preserves I (add_usage u)) ->
  (forall v, preserves I (write (data_usage v))) ->
  (forall st msg, preserves I (progress response st msg)) ->
  (forall c, preserves I (issue c)) ->
  preserves I (onFinish cl f).
Proof.
  intros Hu Hw Hp Hi. unfold Chat.onFinish.
  kept ltac:(first [apply Hu | apply Hw | apply Hp | apply Hi]).
Qed.

Lemma drive_preserves (I : State -> Prop) (cl : Closure) (fins : list Finish) :
  (forall u, preserves I (add_usage u)) ->
  (forall v, preserves I (write (data_usage v))) ->
  (forall st msg, preserves I (progress response st msg)) ->
  (forall c, preserves I (issue c)) ->
  preserves I (drive cl fins).
Proof.
  intros Hu Hw Hp Hi. induction fins as [|f fins IH]; cbn [Chat.drive].
  - apply preserves_ret.
  - apply preserves_bind; [apply onFinish_preserves; assumption|].
    intros [|]; [apply preserves_ret | exact IH].
Qed.

(** *** Progress order *)

Lemma ordered_add_usage u : preserves ordered (add_usage u).
Proof. intros s H. exact H. Qed.

Lemma ordered_issue c : preserves ordered (issue c).
Proof. intros s H. exact H. Qed.

Lemma ordered_write e :
  match e with data_progress _ => False | _ => True end ->
  preserves ordered (write e).
Proof.
  intros He s [Ho Hc]. unfold ordered, orders in *. cbn [write fst written progressCounter].
  rewrite omap_app. cbn [omap]. destruct e; [contradiction | | |];
    cbn; rewrite app_nil_r; split; assumption.
Qed.

Lemma ordered_progress l st msg : preserves ordered (progress l st msg).
Proof.
  intros s [Ho Hc]. unfold ordered, orders in *.
  cbn [progress bindM next_order write fst written progressCounter].
  rewrite omap_app, Ho. cbn [omap list_omap order].
  split; [|clear - Hc; lia].
  replace (S (progressCounter s) - 1) with (S (progressCounter s - 1))
    by (clear - Hc; lia).
  rewrite seq_S. f_equal. f_equal. clear - Hc. lia.
Qed.

Lemma optimize_ordered env processed : preserves ordered (optimize env processed).
Proof.
  unfold Chat.optimize.
  kept ltac:(first [apply ordered_add_usage | apply ordered_issue
                   | apply ordered_progress | apply ordered_write; exact I]).
Qed.

Lemma execute_ordered req env : preserves ordered (execute req env).
Proof.
  unfold Chat.execute. cbv zeta.
  apply preserves_bind.
  { destruct (optimizing req); [apply optimize_ordered | apply preserves_ret]. }
  intros ctx. apply preserves_bind; [apply ordered_progress|]. intros _.
  apply preserves_bind; [apply ordered_issue|]. intros _.
  apply drive_preserves; intros;
    first [apply ordered_add_usage | apply ordered_issue
          | apply ordered_progress | apply ordered_write; exact I].
Qed.

(** C5. Every progress event carries the value of the counter and moves it
    up by one; in any run the order values written are 1, 2, ..., n, and
    the counter ends at n + 1. *)
Theorem progress_order_increasing :
  (forall l st msg s,
      written (fst (progress l st msg s)) =
        written s ++ [data_progress {| label := l; status := st;
                                       order := progressCounter s; message := msg |}]
      /\ progressCounter (fst (progress l st msg s)) = S (progressCounter s))
  /\ forall req env,
      let s := fst (run req env) in
      orders (written s) = seq 1 (List.length (orders (written s)))
      /\ progressCounter s = S (List.length (orders (written s))).
Proof.
  split; [intros; split; reflexivity|].
  intros req env s.
  assert (H : ordered s).
  { apply execute_ordered. split; [reflexivity | cbn; lia]. }
  destruct H as [Ho Hc]. rewrite Ho at 2 3. rewrite length_seq.
  split; [exact Ho | lia].
Qed.

(** *** Skipping the optimization step *)

Lemma skipped_add_usage c0 u : preserves (skipped c0) (add_usage u).
Proof. intros s H. exact H. Qed.

Lemma skipped_write c0 e :
  is_context_event e = false -> preserves (skipped c0) (write e).
Proof.
  intros He s [Hw Hc]. split; [|exact Hc].
  cbn [write fst written]. apply Forall_app. split; [exact Hw|].
  constructor; [exact He | constructor].
Qed.

Lemma skipped_progress c0 st msg : preserves (skipped c0) (progress response st msg).
Proof.
  intros s [Hw Hc]. split; [|exact Hc].
  cbn [progress bindM next_order write fst written]. apply Forall_app.
  split; [exact Hw|]. constructor; [reflexivity | constructor].
Qed.

Lemma skipped_issue c0 c : preserves (skipped c0) (issue c).
Proof.
  intros s [Hw Hc]. split; [exact Hw|].
  cbn [issue fst calls]. destruct (calls s); [discriminate Hc | exact Hc].
Qed.

Lemma execute_skip req env :
  optimizing req = false ->
  let processed := processToolInvocations (messages req) in
  let cl := {| processedMessages := processed;
               filteredFiles := None;
               chat_summary := None;
               messageSliceId :=
                 if (3 <? List.length processed)%nat
                 then (List.length processed - 3)%nat else 0%nat |} in
  let first_call :=
    call_streamText {| st_messages := convertToCoreMessages processed;
                       st_contextFiles := None;
                       st_summary := None;
                       st_messageSliceId := messageSliceId cl |} in
  run req env =
    drive cl (segments env)
      {| cumulativeUsage := zero;
         progressCounter := 2;
         switches := fresh_switches;
         written := [data_progress {| label := response; status := in_progress;
                                      order := 1;
                                      message := str "Generating Response" |}];
         calls := [first_call];
         mediated := [] |}.
Proof.
  intros H. unfold Chat.run, Chat.execute. rewrite H. reflexivity.
Qed.

(** C4. When contextOptimization is false or no file path is found, a run
    writes no 'summary' or 'context' progress event, no chatSummary and no
    codeContext event, and its first model call is the generation call,
    given every processed message, with no summary and no selected files. *)
Theorem skip_context_optimization req env :
  contextOptimization req = false
  \/ getFilePaths (default [] (files req)) = [] ->
  let s := fst (run req env) in
  let processed := processToolInvocations (messages req) in
  Forall (fun e => is_context_event e = false) (written s)
  /\ head (calls s) =
       Some (call_streamText
               {| st_messages := convertToCoreMessages processed;
                  st_contextFiles := None;
                  st_summary := None;
                  st_messageSliceId :=
                    if (3 <? List.length processed)%nat
                    then (List.length processed - 3)%nat else 0%nat |}).
Proof.
  intros H.
  assert (Hopt : optimizing req = false).
  { unfold Chat.optimizing. destruct H as [-> | ->];
      [apply andb_false_r | reflexivity]. }
  cbv zeta. rewrite (execute_skip req env Hopt). cbv zeta.
  apply (drive_preserves (skipped _)).
  - intros; apply skipped_add_usage.
  - intros; apply skipped_write; reflexivity.
  - intros; apply skipped_progress.
  - intros; apply skipped_issue.
  - split; [|reflexivity]. constructor; [reflexivity | constructor].
Qed.

(** *** Continuation *)

Lemma switches_kept n {A} (m : M A) :
  (forall s, switches (fst (m s)) = switches s) ->
  preserves (fun s => switches s = n) m.
Proof. intros H s Hs. rewrite H. exact Hs. Qed.

(** No step of a run changes [stream.switches]. *)
Lemma run_switches req env : switches (fst (run req env)) = fresh_switches.
Proof.
  unfold Chat.run.
  assert (Hp : forall l st msg,
             preserves (fun s => switches s = fresh_switches) (progress l st msg))
    by (intros; apply switches_kept; reflexivity).
  assert (Ha : forall u, preserves (fun s => switches s = fresh_switches) (add_usage u))
    by (intros; apply switches_kept; reflexivity).
  assert (Hw : forall e, preserves (fun s => switches s = fresh_switches) (write e))
    by (intros; apply switches_kept; reflexivity).
  assert (Hi : forall c, preserves (fun s => switches s = fresh_switches) (issue c))
    by (intros; apply switches_kept; reflexivity).
  cut (preserves (fun s => switches s = fresh_switches) (execute req env)).
  { intros H. apply H. reflexivity. }
  unfold Chat.execute. cbv zeta.
  apply preserves_bind.
  { destruct (optimizing req); [|apply preserves_ret].
    unfold Chat.optimize.
    kept ltac:(first [apply Hp | apply Ha | apply Hw | apply Hi]). }
  intros ctx. apply preserves_bind; [apply Hp|]. intros _.
  apply preserves_bind; [apply Hi|]. intros _.
  apply drive_preserves; intros; first [apply Hp | apply Ha | apply Hw | apply Hi].
Qed.

Lemma is_length_true f : finishReason f = str "length" -> is_length f = true.
Proof. intros H. unfold is_length. rewrite H. reflexivity. Qed.

(** [onFinish], branch by branch. *)
Lemma onFinish_unfold cl f s :
  onFinish cl f s =
  let s1 := fst (add_usage (usage f) s) in
  if is_length f then
    if (MAX_RESPONSE_SEGMENTS <=? switches s)%nat
    then (s1, Throw (Error MAX_SEGMENTS_MESSAGE))
    else
      match last (List.filter (fun x => role_eqb (ui_role x) user) (processedMessages cl)) with
      | None => (s1, Throw TypeError)
      | Some u =>
          match convertToCoreMessages [u] with
          | [] => (s1, Throw TypeError)
          | m :: _ =>
              (fst (issue
                      (call_streamText
                         {| st_messages :=
                              convertToCoreMessages (processedMessages cl)
                              ++ [ {| role := assistant; content := text f |};
                                   {| role := user;
                                      content :=
                                        directive (fst (extractPropertiesFromMessage m))
                                          (snd (extractPropertiesFromMessage m)) |} ];
                            st_contextFiles := filteredFiles cl;
                            st_summary := chat_summary cl;
                            st_messageSliceId := messageSliceId cl |}) s1),
               Normal Continued)
          end
      end
  else
    (fst (progress response complete (str "Response Generated")
            (fst (write (data_usage (cumulativeUsage s1)) s1))),
     Normal Done).
Proof.
  unfold Chat.onFinish, is_length. cbv zeta.
  destruct (eqb_str (finishReason f) (str "length"));
    cbn [negb bindM add_usage get fst switches cumulativeUsage].
  - destruct (MAX_RESPONSE_SEGMENTS <=? switches s)%nat; [reflexivity|].
    destruct (last _) as [u|]; [|reflexivity].
    destruct (convertToCoreMessages [u]) as [|m ms]; [reflexivity|].
    destruct (extractPropertiesFromMessage m) as [model provider]. reflexivity.
  - destruct (accumulate (cumulativeUsage s) (usage f)). reflexivity.
Qed.

(** C1. A segment that finishes with 'length' under the budget is
    continued by one model call whose conversation is the processed one
    followed by the assistant's partial text and the directive naming the
    model and provider of the last user message; the switch counter keeps
    its value. *)
Theorem continuation_call cl f s u m ms :
  finishReason f = str "length" ->
  switches s < MAX_RESPONSE_SEGMENTS ->
  last (List.filter (fun x => role_eqb (ui_role x) user) (processedMessages cl)) = Some u ->
  convertToCoreMessages [u] = m :: ms ->
  snd (onFinish cl f s) = Normal Continued
  /\ calls (fst (onFinish cl f s)) =
       calls s ++
       [call_streamText
          {| st_messages :=
               convertToCoreMessages (processedMessages cl)
               ++ [ {| role := assistant; content := text f |};
                    {| role := user;
                       content := directive (fst (extractPropertiesFromMessage m))
                                    (snd (extractPropertiesFromMessage m)) |} ];
             st_contextFiles := filteredFiles cl;
             st_summary := chat_summary cl;
             st_messageSliceId := messageSliceId cl |}]
  /\ written (fst (onFinish cl f s)) = written s
  /\ switches (fst (onFinish cl f s)) = switches s.
Proof.
  intros Hf Hs Hu Hm. rewrite onFinish_unfold. cbv zeta.
  rewrite (is_length_true f Hf).
  apply Nat.leb_gt in Hs. rewrite Hs, Hu, Hm.
  repeat split.
Qed.

(** C2. A segment that finishes with 'length' once the switch counter
    has reached MAX_RESPONSE_SEGMENTS raises 'Cannot continue message:
    Maximum segments reached'; no model call is issued, nothing is written,
    and the segments that might follow are not looked at. *)
Theorem segment_budget cl f fins s :
  finishReason f = str "length" ->
  MAX_RESPONSE_SEGMENTS <= switches s ->
  snd (drive cl (f :: fins) s) =
    Throw (Error (str "Cannot continue message: Maximum segments reached"))
  /\ calls (fst (drive cl (f :: fins) s)) = calls s
  /\ written (fst (drive cl (f :: fins) s)) = written s.
Proof.
  intros Hf Hs. cbn [Chat.drive]. unfold bindM. rewrite onFinish_unfold. cbv zeta.
  rewrite (is_length_true f Hf).
  apply Nat.leb_le in Hs. rewrite Hs.
  repeat split.
Qed.

(** *** Tool calls *)

Lemma or_val_truthiness (tc : ToolCall) :
  or_val (or_val (input tc) (args tc)) (Obj no_props) = args_by_truthiness tc.
Proof.
  unfold args_by_truthiness, or_val.
  destruct (truthy (input tc)) eqn:Hi; cbv beta iota; [rewrite Hi; reflexivity|].
  destruct (truthy (args tc)); reflexivity.
Qed.

Lemma truthiness_presence (tc : ToolCall) :
  object_or_missing (input tc) -> object_or_missing (args tc) ->
  args_by_truthiness tc = args_by_presence tc.
Proof.
  unfold args_by_truthiness, args_by_presence.
  destruct (input tc), (args tc); cbn; intros Hi Ha;
    try contradiction; reflexivity.
Qed.

(** C8 (amended). For the tool calls of a finished step the mediator
    receives, call by call, the id, the name and as [args] the call's
    [input] when that is truthy, as any object is, else its [args] when
    that is truthy, else the empty object.  For a call whose [input] and
    [args] are objects when they are there, this is the call's [input] when
    present, else its [args], else the empty object. *)
Theorem tool_call_args :
  (forall (toolCalls : list ToolCall) (s : State),
      mediated (fst (onStepFinish toolCalls s)) =
        mediated s ++
        List.map (fun tc => {| inv_toolCallId := toolCallId tc;
                               inv_toolName := toolName tc;
                               inv_args := args_by_truthiness tc |}) toolCalls)
  /\ (forall tc : ToolCall,
        object_or_missing (input tc) -> object_or_missing (args tc) ->
        args_by_truthiness tc = args_by_presence tc).
Proof.
  split; [|exact truthiness_presence].
  intros toolCalls. induction toolCalls as [|tc tcs IH]; intros s.
  - cbn. rewrite app_nil_r. reflexivity.
  - cbn [onStepFinish bindM processToolCall List.map].
    rewrite IH. cbn [mediated]. rewrite or_val_truthiness.
    rewrite <- app_assoc. reflexivity.
Qed.

(** *** Usage *)

Lemma or0_worth (n : count) : or0 n = worth n.
Proof.
  destruct n as [z| |]; [|reflexivity..].
  unfold or0, worth. destruct (Z.eqb_spec z 0); congruence.
Qed.

(** One accumulation adds what the report is counted for. *)
Lemma accumulate_counted (c : Cumulative) (u : option LanguageModelUsage) :
  accumulate c u = plus c (counted u).
Proof.
  destruct c as [cc cp ct]. destruct u as [[p i c o t]|]; unfold plus, counted; cbn.
  - rewrite !or0_worth. f_equal.
    + destruct c, o; reflexivity.
    + destruct p, i; reflexivity.
    + destruct t as [t|]; [reflexivity|]. f_equal.
      destruct (pick p i), (pick c o); reflexivity.
  - rewrite !Z.add_0_r. reflexivity.
Qed.

Lemma fold_accumulate (reports : list (option LanguageModelUsage)) (c : Cumulative) :
  fold_left accumulate reports c = plus c (counted_sum reports).
Proof.
  revert c. induction reports as [|r reports IH]; intros c.
  - destruct c. unfold plus. cbn. rewrite !Z.add_0_r. reflexivity.
  - cbn [fold_left]. rewrite IH, accumulate_counted.
    unfold plus, counted_sum, counted. cbn. f_equal; lia.
Qed.

(** A report whose fields hold numbers is counted for what it reports. *)
Lemma counted_numeric (u : option LanguageModelUsage) :
  numeric u ->
  counted_prompt u = reported_prompt u
  /\ counted_completion u = reported_completion u
  /\ counted_total u = reported_total u.
Proof.
  destruct u as [[p i c o t]|]; [|repeat split].
  cbn. intros (Hp & Hi & Hc & Ho & Ht).
  destruct p as [[?| |]|], i as [[?| |]|], c as [[?| |]|], o as [[?| |]|],
    t as [[?| |]|]; cbn in *; try contradiction; repeat split.
Qed.

Lemma counted_sum_numeric (reports : list (option LanguageModelUsage)) :
  Forall numeric reports -> counted_sum reports = componentwise_sum reports.
Proof.
  unfold counted_sum, componentwise_sum.
  induction 1 as [|u reports Hu _ IH]; [reflexivity|].
  injection IH as Hc Hp Ht. destruct (counted_numeric u Hu) as (Ep & Ec & Et).
  cbn [sum]. rewrite Hc, Hp, Ht, Ep, Ec, Et. reflexivity.
Qed.

(** What a sequence of finishes writes and accumulates. *)
Lemma drive_written cl fins s :
  written (fst (drive cl fins s)) =
    written s ++
    match snd (drive cl fins s) with
    | Normal Finished =>
        [data_usage (cumulativeUsage (fst (drive cl fins s)));
         data_progress {| label := response; status := complete;
                          order := progressCounter s;
                          message := str "Response Generated" |}]
    | _ => []
    end
  /\ (snd (drive cl fins s) = Normal Finished ->
      cumulativeUsage (fst (drive cl fins s)) =
        fold_left accumulate (segment_reports fins) (cumulativeUsage s)).
Proof.
  revert s. induction fins as [|f fins IH]; intros s.
  - cbn. rewrite app_nil_r. split; [reflexivity | discriminate].
  - cbn [Chat.drive segment_reports]. unfold bindM at 1 2 3 4 5.
    rewrite onFinish_unfold. cbv zeta.
    destruct (is_length f).
    + destruct (MAX_RESPONSE_SEGMENTS <=? switches s)%nat;
        [cbn; rewrite app_nil_r; split; [reflexivity | discriminate]|].
      destruct (last _) as [u|];
        [|cbn; rewrite app_nil_r; split; [reflexivity | discriminate]].
      destruct (convertToCoreMessages [u]) as [|m ms];
        [cbn; rewrite app_nil_r; split; [reflexivity | discriminate]|].
      match goal with
      | |- context [drive cl fins ?s2] => specialize (IH s2)
      end.
      exact IH.
    + cbn. rewrite <- app_assoc. split; reflexivity.
Qed.

(** A run is the optimization step, which writes no usage event, followed
    by the segments. *)
Lemma execute_shape req env :
  (exists cl s0,
      run req env = drive cl (segments env) s0
      /\ usage_events (written s0) = []
      /\ cumulativeUsage s0 = fold_left accumulate (context_reports req env) zero)
  \/ (exists s0 e, run req env = (s0, Throw e) /\ usage_events (written s0) = []).
Proof.
  unfold Chat.run, Chat.execute, Chat.context_reports. cbv zeta.
  destruct (optimizing req).
  - unfold Chat.optimize.
    destruct (summaryReply env) as [r|e].
    + destruct (selectReply env) as [c|e].
      * destruct (result c) as [selected|] eqn:Hc.
        -- left. unfold bindM, await. cbn. rewrite Hc. cbn.
           eexists _, _. split; [reflexivity|]. split; reflexivity.
        -- right. unfold bindM, await. cbn. rewrite Hc. cbn.
           eexists _, _. split; reflexivity.
      * right. unfold bindM, await. cbn. eexists _, _. split; reflexivity.
    + right. unfold bindM, await. cbn. eexists _, _. split; reflexivity.
  - left. eexists _, _. split; [reflexivity|]. split; reflexivity.
Qed.

Lemma plus_zero_l (c : Cumulative) : plus zero c = c.
Proof. destruct c. reflexivity. Qed.

Lemma usage_events_app (a b : list Event) :
  usage_events (a ++ b) = usage_events a ++ usage_events b.
Proof. unfold usage_events. apply omap_app. Qed.

(** The usage event of a finished run adds up what every sub-call made is
    counted for. *)
Lemma finished_usage_counted req env s :
  run req env = (s, Normal Finished) ->
  usage_events (written s) =
    [counted_sum (context_reports req env ++ segment_reports (segments env))].
Proof.
  intros H. destruct (execute_shape req env) as [(cl & s0 & Hr & Hw & Hc) | (s0 & e & Hr & _)].
  - rewrite Hr in H.
    destruct (drive_written cl (segments env) s0) as [Hd Hf].
    rewrite H in Hd, Hf. cbn [fst snd] in Hd, Hf.
    rewrite Hd, usage_events_app, Hw. cbn.
    rewrite (Hf eq_refl), Hc, <- fold_left_app, fold_accumulate, plus_zero_l.
    reflexivity.
  - rewrite Hr in H. discriminate H.
Qed.

(** In a run that finishes and whose sub-calls report numbers under the
    keys they have, the usage event written is the componentwise sum, over
    the sub-calls made, of the prompt, completion and total counts each
    reports. *)
Lemma usage_is_additive req env s :
  run req env = (s, Normal Finished) ->
  Forall numeric (context_reports req env ++ segment_reports (segments env)) ->
  usage_events (written s) =
    [componentwise_sum (context_reports req env ++ segment_reports (segments env))].
Proof.
  intros H Hn. rewrite (finished_usage_counted req env s H), (counted_sum_numeric _ Hn).
  reflexivity.
Qed.

(** C9. Handling a finish always adds what its usage is counted for to the
    running totals: the three numbers themselves for a report of three
    numbers, and for a report of two their sum as the total.  It writes the usage event, carrying the new totals, and the
    'response' complete event exactly when the reason is not 'length', and
    writes nothing otherwise.  A run therefore holds one usage event when it
    finishes, written after the last segment, followed only by the
    'response' complete event, and carrying the sum over the summary call,
    the selection call and every segment, those cut short included; it
    holds none when it does not finish. *)
Theorem usage_event_on_final_segment :
  (forall cl f s,
      cumulativeUsage (fst (onFinish cl f s)) =
        plus (cumulativeUsage s) (counted (usage f))
      /\ written (fst (onFinish cl f s)) =
           written s ++
           if eqb_str (finishReason f) (str "length") then []
           else [data_usage (plus (cumulativeUsage s) (counted (usage f)));
                 data_progress {| label := response; status := complete;
                                  order := progressCounter s;
                                  message := str "Response Generated" |}])
  /\ (forall p c t,
        counted (Some {| promptTokens := Some (number p); inputTokens := None;
                         completionTokens := Some (number c); outputTokens := None;
                         totalTokens := Some (number t) |})
        = {| cum_completionTokens := c; cum_promptTokens := p; cum_totalTokens := t |}
        /\ counted (Some {| promptTokens := None; inputTokens := Some (number p);
                            completionTokens := None; outputTokens := Some (number c);
                            totalTokens := None |})
           = {| cum_completionTokens := c; cum_promptTokens := p;
                cum_totalTokens := p + c |})
  /\ forall req env,
      match snd (run req env) with
      | Normal Finished =>
          exists w n,
            written (fst (run req env)) =
              w ++ [data_usage
                      (counted_sum
                         (context_reports req env ++ segment_reports (segments env)));
                    data_progress {| label := response; status := complete;
                                     order := n;
                                     message := str "Response Generated" |}]
            /\ usage_events w = []
      | _ => usage_events (written (fst (run req env))) = []
      end.
Proof.
  split; [|split; [split; reflexivity|]].
  - intros cl f s. rewrite onFinish_unfold. cbv zeta. unfold is_length.
    rewrite <- accumulate_counted.
    destruct (eqb_str (finishReason f) (str "length")).
    + destruct (MAX_RESPONSE_SEGMENTS <=? switches s)%nat;
        [cbn; rewrite app_nil_r; split; reflexivity|].
      destruct (last _) as [u|]; [|cbn; rewrite app_nil_r; split; reflexivity].
      destruct (convertToCoreMessages [u]) as [|m ms];
        cbn; rewrite app_nil_r; split; reflexivity.
    + cbn. rewrite <- app_assoc. split; reflexivity.
  - intros req env.
    destruct (execute_shape req env) as [(cl & s0 & Hr & Hw & Hc) | (s0 & e & Hr & Hw)].
    + rewrite Hr. destruct (drive_written cl (segments env) s0) as [Hd Hf].
      destruct (snd (drive cl (segments env) s0)) as [[|]|e].
      * exists (written s0), (progressCounter s0). split; [|exact Hw].
        rewrite Hd, (Hf eq_refl), Hc, <- fold_left_app, fold_accumulate, plus_zero_l.
        reflexivity.
      * rewrite Hd, app_nil_r. exact Hw.
      * rewrite Hd, app_nil_r. exact Hw.
    + rewrite Hr. exact Hw.
Qed.

(** Under the budget, every segment cut short is continued by one call,
    and the response finishes with the first segment that is not. *)
Lemma drive_continues cl pre f post s u m ms :
  Forall (fun g => is_length g = true) pre ->
  is_length f = false ->
  switches s < MAX_RESPONSE_SEGMENTS ->
  last (List.filter (fun x => role_eqb (ui_role x) user) (processedMessages cl)) = Some u ->
  convertToCoreMessages [u] = m :: ms ->
  snd (drive cl (pre ++ f :: post) s) = Normal Finished
  /\ List.length (calls (fst (drive cl (pre ++ f :: post) s))) =
       (List.length (calls s) + List.length pre)%nat.
Proof.
  intros Hpre Hf Hs Hu Hm. revert s Hs.
  induction Hpre as [|g pre Hg _ IH]; intros s Hs.
  - cbn [app Chat.drive]. unfold bindM. rewrite onFinish_unfold. cbv zeta.
    rewrite Hf. cbn. split; [reflexivity | lia].
  - cbn [app Chat.drive]. unfold bindM at 1 2. rewrite onFinish_unfold. cbv zeta.
    rewrite Hg. pose proof Hs as Hs'. apply Nat.leb_gt in Hs'. rewrite Hs', Hu, Hm.
    match goal with
    | |- context [drive cl _ ?s2] =>
        destruct (IH s2) as [H1 H2]; [exact Hs|]
    end.
    split; [exact H1|]. rewrite H2. cbn [issue fst calls add_usage].
    rewrite length_app. cbn. lia.
Qed.

End OrchestratorFacts.

(** *** The orchestration on the sample deployment *)

Lemma continuation_call_witness :
  Chat.switches (fst (Sample.onFinish Sample.closure
                   (Sample.cut_short (str "<boltArtifact") (Sample.usage_v5 900 4096 4996))
                   (Sample.generating 0))) = 0%nat.
Proof.
  refine (proj2 (proj2 (proj2
    (continuation_call Sample.MAX_RESPONSE_SEGMENTS Sample.CONTINUE_PROMPT
       Sample.convertToCoreMessages Sample.extractPropertiesFromMessage
       Sample.closure
       (Sample.cut_short (str "<boltArtifact") (Sample.usage_v5 900 4096 4996))
       (Sample.generating 0) Sample.ask_again
       {| Chat.role := Chat.user;
          Chat.content := join 10 (Chat.parts Sample.ask_again) |} [] _ _ _ _)))).
  - reflexivity.
  - vm_compute. lia.
  - vm_compute. reflexivity.
  - reflexivity.
Defined.

(** With a budget of two, a response cut short three times is continued
    three times and finishes: the counter the budget is checked against is
    still 0. *)
Example budget_never_reached :
  snd (Sample.run Sample.plain_request Sample.four_segments) = Normal Chat.Finished
  /\ List.length (Chat.calls (fst (Sample.run Sample.plain_request Sample.four_segments))) = 4%nat
  /\ Chat.switches (fst (Sample.run Sample.plain_request Sample.four_segments)) = 0%nat.
Proof. vm_compute. repeat split. Qed.

(** The continuation names the model of the last user message. *)
Example continuation_directive :
  exists a,
    last (Chat.calls (fst (Sample.onFinish Sample.closure
                             (Sample.cut_short (str "<boltArtifact") None)
                             (Sample.generating 0))))
    = Some (Chat.call_streamText a)
    /\ List.map Chat.content (drop 3 (Chat.st_messages a)) =
         [str "<boltArtifact";
          str "[Model: o3-mini]" ++ [10; 10]%N ++ str "[Provider: OpenAI]" ++ [10; 10]%N
          ++ Sample.CONTINUE_PROMPT].
Proof. eexists. split; vm_compute; reflexivity. Qed.

Lemma segment_budget_witness :
  snd (Sample.drive Sample.closure
         [Sample.cut_short (str "<boltArtifact") None; Sample.stopped (str "x") None]
         (Sample.generating 2))
  = Throw (Error (str "Cannot continue message: Maximum segments reached")).
Proof.
  refine (proj1
    (segment_budget Sample.MAX_RESPONSE_SEGMENTS Sample.CONTINUE_PROMPT
       Sample.convertToCoreMessages Sample.extractPropertiesFromMessage
       Sample.closure (Sample.cut_short (str "<boltArtifact") None)
       [Sample.stopped (str "x") None] (Sample.generating 2) _ _)).
  - reflexivity.
  - vm_compute. lia.
Defined.

Lemma usage_is_additive_witness :
  Chat.usage_events
    (Chat.written (fst (Sample.run Sample.optimized_request Sample.two_segments)))
  = [ {| Usage.cum_completionTokens := 4838;
         Usage.cum_promptTokens := 6220;
         Usage.cum_totalTokens := 11158 |} ].
Proof.
  refine (eq_trans
    (usage_is_additive Sample.MAX_RESPONSE_SEGMENTS Sample.CONTINUE_PROMPT
       Sample.WORK_DIR Sample.convertToCoreMessages Sample.extractPropertiesFromMessage
       Sample.processToolInvocations Sample.getFilePaths 0
       Sample.optimized_request Sample.two_segments
       (fst (Sample.run Sample.optimized_request Sample.two_segments)) _ _) _).
  - vm_compute. reflexivity.
  - vm_compute. repeat constructor.
  - vm_compute. reflexivity.
Defined.

(** C3. A response of one segment, finishing with reason 'stop' and
    reporting [{inputTokens: 5, outputTokens: 7, totalTokens: undefined}],
    finishes; its usage event holds prompt 5, completion 7 and total 0,
    where the componentwise sum of what the sub-calls report, the total
    computed as prompt + completion when the provider gives none, is
    5, 7 and 12. *)
Theorem usage_total_dropped :
  snd (Sample.run Sample.plain_request Fixtures.total_undefined) = Normal Chat.Finished
  /\ Chat.usage_events
       (Chat.written (fst (Sample.run Sample.plain_request Fixtures.total_undefined)))
     = [ {| Usage.cum_completionTokens := 7;
            Usage.cum_promptTokens := 5;
            Usage.cum_totalTokens := 0 |} ]
  /\ Usage.componentwise_sum
       (Chat.context_reports Sample.getFilePaths Sample.plain_request
          Fixtures.total_undefined
        ++ Chat.segment_reports (Chat.segments Fixtures.total_undefined))
     = {| Usage.cum_completionTokens := 7;
          Usage.cum_promptTokens := 5;
          Usage.cum_totalTokens := 12 |}.
Proof. vm_compute. repeat split. Qed.

Lemma skip_context_optimization_witness :
  Forall (fun e => Chat.is_context_event e = false)
    (Chat.written (fst (Sample.run Sample.plain_request Sample.two_segments))).
Proof.
  refine (proj1
    (skip_context_optimization Sample.MAX_RESPONSE_SEGMENTS Sample.CONTINUE_PROMPT
       Sample.WORK_DIR Sample.convertToCoreMessages Sample.extractPropertiesFromMessage
       Sample.processToolInvocations Sample.getFilePaths 0
       Sample.plain_request Sample.two_segments _)).
  left. reflexivity.
Defined.

Lemma tool_call_args_witness :
  List.map Chat.inv_args
    (Chat.mediated (fst (Chat.onStepFinish Sample.step_calls (Sample.generating 0))))
  = [ Obj (prop (str "q") (Str (str "remix")) no_props);
      Obj (prop (str "url") (Str (str "https://remix.run")) no_props);
      Obj no_props ].
Proof.
  rewrite (proj1 tool_call_args Sample.step_calls (Sample.generating 0)).
  cbn [Chat.mediated Sample.generating app Sample.step_calls List.map Chat.inv_args].
  rewrite !(proj2 tool_call_args) by exact I.
  reflexivity.
Defined.

(** C8 (as stated) fails: an [input] that is there but falsy gives way to
    [args], and [args] that are there but falsy to the empty object. *)
Lemma tool_call_args_not_by_presence :
  List.map Chat.inv_args
    (Chat.mediated (fst (Chat.onStepFinish Fixtures.odd_calls (Sample.generating 0))))
  = [ Obj (prop (str "q") (Str (str "x")) no_props); Obj no_props ]
  /\ List.map Chat.args_by_presence Fixtures.odd_calls = [ Str []; Null ]
  /\ ~ (forall (toolCalls : list Chat.ToolCall) (s : Chat.State),
         List.map Chat.inv_args (Chat.mediated (fst (Chat.onStepFinish toolCalls s)))
         = List.map Chat.inv_args (Chat.mediated s)
           ++ List.map Chat.args_by_presence toolCalls).
Proof.
  split; [vm_compute; reflexivity|]. split; [vm_compute; reflexivity|].
  intros H. specialize (H Fixtures.odd_calls (Sample.generating 0)).
  vm_compute in H. discriminate H.
Qed.

(** * Further properties *)

(** ** Decoding and trimming *)

Module StringFacts.

Lemma escapes_plain (s : jsstring) :
  ~ In 37%N s -> escapes s = Some (List.map Lit s).
Proof.
  induction s as [|c s IH]; intros H; [reflexivity|].
  cbn [escapes]. destruct (N.eqb_spec c 37) as [->|Hc].
  - exfalso. apply H. left. reflexivity.
  - rewrite IH; [reflexivity|]. intros Hin. apply H. right. exact Hin.
Qed.

Lemma utf8_plain (s : jsstring) : utf8 (List.map Lit s) = Some s.
Proof.
  induction s as [|c s IH]; [reflexivity|].
  cbn [List.map utf8]. rewrite IH. reflexivity.
Qed.

(** A string without '%' decodes to itself. *)
Lemma decode_plain (s : jsstring) :
  ~ In 37%N s -> decodeURIComponent s = Normal s.
Proof.
  intros H. unfold decodeURIComponent.
  rewrite (escapes_plain s H), utf8_plain. reflexivity.
Qed.

Lemma trimStart_incl (s : jsstring) (x : N) : In x (trimStart s) -> In x s.
Proof.
  induction s as [|c s IH]; [intros []|].
  cbn [trimStart]. destruct (is_space c); [|intros H; exact H].
  intros H. right. apply IH. exact H.
Qed.

Lemma trimEnd_incl (s : jsstring) (x : N) : In x (trimEnd s) -> In x s.
Proof.
  unfold trimEnd. intros H. apply in_rev in H. apply trimStart_incl in H.
  apply in_rev. exact H.
Qed.

Lemma trim_incl (s : jsstring) (x : N) : In x (trim s) -> In x s.
Proof. unfold trim. intros H. apply trimStart_incl, trimEnd_incl, H. Qed.

Lemma split_incl (c : N) (s piece : jsstring) (x : N) :
  In piece (split c s) -> In x piece -> In x s.
Proof.
  revert piece. induction s as [|y s IH]; intros piece.
  - cbn. intros [<-|[]] [].
  - cbn [split]. destruct (y =? c)%N.
    + intros [<-|Hp]; [intros []|]. intros Hx. right. exact (IH piece Hp Hx).
    + pose proof (split_not_nil c s) as Hne.
      destruct (split c s) as [|h t]; [contradiction|].
      intros [<-|Hp].
      * intros [->|Hx]; [left; reflexivity|].
        right. apply (IH h); [left; reflexivity | exact Hx].
      * intros Hx. right. apply (IH piece); [right; exact Hp | exact Hx].
Qed.

(** What [trimStart] leaves starts with a unit that is no space. *)
Lemma trimStart_head (s : jsstring) (c : N) (r : jsstring) :
  trimStart s = c :: r -> is_space c = false.
Proof.
  induction s as [|x s IH]; [discriminate|].
  cbn [trimStart]. destruct (is_space x) eqn:E; [exact IH|].
  intros H. injection H as <- _. exact E.
Qed.

Lemma trimStart_snoc (a : jsstring) (c : N) :
  is_space c = false -> exists a', trimStart (a ++ [c]) = a' ++ [c].
Proof.
  intros Hc. induction a as [|x a [a' IH]].
  - exists []. cbn. rewrite Hc. reflexivity.
  - cbn [app trimStart]. destruct (is_space x).
    + exists a'. exact IH.
    + exists (x :: a). reflexivity.
Qed.

(** [trimEnd] keeps a first unit that is no space. *)
Lemma trimEnd_head (c : N) (r : jsstring) :
  is_space c = false -> exists r', trimEnd (c :: r) = c :: r'.
Proof.
  intros Hc. unfold trimEnd. cbn [rev].
  destruct (trimStart_snoc (rev r) c Hc) as [a' ->].
  exists (rev a'). rewrite rev_app_distr. reflexivity.
Qed.

Lemma trim_head (s : jsstring) (c : N) (r : jsstring) :
  trim s = c :: r -> is_space c = false.
Proof.
  unfold trim. destruct (trimStart s) as [|c0 r0] eqn:E; [discriminate|].
  pose proof (trimStart_head s c0 r0 E) as Hc0.
  destruct (trimEnd_head c0 r0 Hc0) as [r' ->].
  intros H. injection H as <- _. exact Hc0.
Qed.

Lemma trim_nonempty (c : N) (r : jsstring) :
  is_space c = false -> trim (c :: r) <> [].
Proof.
  intros Hc. unfold trim. cbn [trimStart]. rewrite Hc.
  destruct (trimEnd_head c r Hc) as [r' ->]. discriminate.
Qed.

Lemma utf16_nonempty (cp : N) : utf16 cp <> [].
Proof. unfold utf16. destruct (cp <? 65536)%N; discriminate. Qed.

Lemma utf8_nonempty (ts : list token) (out : jsstring) :
  ts <> [] -> utf8 ts = Some out -> out <> [].
Proof.
  destruct ts as [|t ts]; [contradiction|]. intros _.
  assert (Hcons : forall (x : N) (o : option jsstring),
             cons x <$> o = Some out -> out <> []).
  { intros x [o|]; cbn; [intros H; injection H as <-; discriminate | discriminate]. }
  assert (Happ : forall (cp : N) (o : option jsstring),
             app (utf16 cp) <$> o = Some out -> out <> []).
  { intros cp [o|]; cbn; [|discriminate]. intros H. injection H as <-.
    pose proof (utf16_nonempty cp). destruct (utf16 cp); [contradiction | discriminate]. }
  destruct t as [c|b]; cbn [utf8]; [apply Hcons|].
  repeat match goal with
         | |- (if ?c then _ else _) = _ -> _ => destruct c
         | |- match ?l with [] => _ | _ :: _ => _ end = _ -> _ => destruct l
         | |- match cont ?t with Some _ => _ | None => _ end = _ -> _ => destruct (cont t)
         | |- None = Some _ -> _ => discriminate
         | |- cons _ <$> _ = _ -> _ => apply Hcons
         | |- app _ <$> _ = _ -> _ => apply Happ
         end.
Qed.

Lemma escapes_nonempty (c : N) (s : jsstring) (ts : list token) :
  escapes (c :: s) = Some ts -> ts <> [].
Proof.
  cbn [escapes]. destruct (c =? 37)%N.
  - destruct s as [|h [|l rest]]; try discriminate.
    destruct (hex h), (hex l), (escapes rest); try discriminate.
    intros H. injection H as <-. discriminate.
  - destruct (escapes s); [|discriminate].
    intros H. injection H as <-. discriminate.
Qed.

(** Decoding never turns a string that is not empty into the empty one. *)
Lemma decode_nonempty (s out : jsstring) :
  s <> [] -> decodeURIComponent s = Normal out -> out <> [].
Proof.
  destruct s as [|c s]; [contradiction|]. intros _.
  unfold decodeURIComponent.
  destruct (escapes (c :: s)) as [ts|] eqn:E; [|discriminate].
  destruct (utf8 ts) as [r|] eqn:U; [|discriminate].
  intros H. injection H as <-.
  exact (utf8_nonempty ts r (escapes_nonempty c s ts E) U).
Qed.

End StringFacts.

(** ** Cookies, further *)

Module CookieMore.

Import Cookies StringFacts.

Lemma before_eq_incl (item : jsstring) (x : N) : In x (before_eq item) -> In x item.
Proof.
  induction item as [|c item IH]; [intros []|].
  cbn [before_eq]. destruct (c =? 61)%N; [intros []|].
  intros [->|H]; [left; reflexivity | right; exact (IH H)].
Qed.

Lemma after_eq_incl (item : jsstring) (x : N) : In x (after_eq item) -> In x item.
Proof.
  induction item as [|c item IH]; [intros []|].
  cbn [after_eq]. destruct (c =? 61)%N; intros H; right; [exact H | exact (IH H)].
Qed.

Lemma entry_plain (item : jsstring) :
  ~ In 37%N item -> entry_of item = Normal (CookiePlain.plain_entry item).
Proof.
  intros H. unfold entry_of, CookiePlain.plain_entry.
  destruct (truthy_str (before_eq item)); [|reflexivity].
  rewrite !decode_plain; [reflexivity| |].
  - intros Hin. apply H. apply after_eq_incl, trim_incl, Hin.
  - intros Hin. apply H. apply before_eq_incl, trim_incl, Hin.
Qed.

Lemma entries_plain (items : list jsstring) :
  Forall (fun item => ~ In 37%N item) items ->
  entries_of items = Normal (omap CookiePlain.plain_entry items).
Proof.
  induction 1 as [|item items Hi _ IH]; [reflexivity|].
  cbn [entries_of omap list_omap]. rewrite (entry_plain item Hi), IH. cbn [JS.bind].
  destruct (CookiePlain.plain_entry item); reflexivity.
Qed.

Lemma items_plain (cookieHeader : jsstring) :
  ~ In 37%N cookieHeader ->
  Forall (fun item => ~ In 37%N item) (List.map trim (split 59 cookieHeader)).
Proof.
  intros H. apply List.Forall_forall. intros item Hin.
  apply List.in_map_iff in Hin. destruct Hin as [piece [<- Hp]].
  intros Hx. apply H. apply (split_incl 59 cookieHeader piece 37 Hp).
  apply trim_incl. exact Hx.
Qed.

(** The name of an entry of a trimmed item is not empty. *)
Lemma entry_key_nonempty (raw k v : jsstring) :
  entry_of (trim raw) = Normal (Some (k, v)) -> k <> [].
Proof.
  unfold entry_of. destruct (trim raw) as [|c r] eqn:E; [discriminate|].
  pose proof (trim_head raw c r E) as Hc.
  cbn [before_eq]. destruct (c =? 61)%N; [discriminate|]. cbn [truthy_str].
  destruct (decodeURIComponent (trim (c :: before_eq r))) as [k0|] eqn:D;
    [|discriminate].
  cbn [JS.bind].
  destruct (decodeURIComponent (trim (after_eq (c :: r)))) as [v0|]; [|discriminate].
  cbn [JS.bind]. intros H. injection H as <- _.
  exact (decode_nonempty _ _ (trim_nonempty c _ Hc) D).
Qed.

Lemma entries_keys_nonempty (raws : list jsstring) (es : list (jsstring * jsstring)) :
  entries_of (List.map trim raws) = Normal es ->
  Forall (fun kv => fst kv <> []) es.
Proof.
  revert es. induction raws as [|raw raws IH]; intros es.
  - cbn. intros H. injection H as <-. constructor.
  - cbn [List.map entries_of].
    destruct (entry_of (trim raw)) as [e|] eqn:E; [|discriminate].
    cbn [JS.bind]. destruct (entries_of (List.map trim raws)) as [es'|]; [|discriminate].
    cbn [JS.bind]. intros H. injection H as <-.
    specialize (IH es' eq_refl). destruct e as [[k v]|]; [|exact IH].
    constructor; [exact (entry_key_nonempty raw k v E) | exact IH].
Qed.

Lemma last_value_absent (k : jsstring) (es : list (jsstring * jsstring)) :
  Forall (fun kv => fst kv <> k) es -> last_value k es = None.
Proof.
  intros H. unfold last_value.
  replace (List.filter (fun kv => eqb_str (fst kv) k) es) with (@nil (jsstring * jsstring));
    [reflexivity|].
  induction H as [|kv es Hk _ IH]; [reflexivity|].
  cbn [List.filter]. apply CookieFacts.eqb_str_false in Hk. rewrite Hk. exact IH.
Qed.

End CookieMore.



(** X2. No entry of the parsed map has the empty name. *)
Theorem parseCookies_no_empty_name (cookieHeader : jsstring)
    (m : gmap jsstring jsstring) :
  Cookies.parseCookies cookieHeader = Normal m -> m !! ([] : jsstring) = None.
Proof.
  unfold Cookies.parseCookies. rewrite CookieFacts.forEach_entries.
  destruct (Cookies.entries_of _) as [es|] eqn:E; [|discriminate].
  cbn [JS.bind]. intros H. injection H as <-.
  rewrite CookieFacts.lookup_assign_all.
  replace (eqb_str [] Cookies.proto_key) with false by reflexivity.
  apply CookieMore.last_value_absent.
  exact (CookieMore.entries_keys_nonempty _ es E).
Qed.

Lemma parseCookies_no_empty_name_witness :
  (<[str " " := str "2"]> (<[str "a" := str "1"]> (∅ : gmap jsstring jsstring)))
    !! ([] : jsstring) = None.
Proof.
  apply (parseCookies_no_empty_name (str " =0; %20=2;a=1")).
  vm_compute. reflexivity.
Defined.

Section SettingFacts.

Variable Json_value : Type.
Variable JSON_parse : jsstring -> Completion Json_value.

Local Notation cookie_setting := (Http.cookie_setting Json_value JSON_parse).

(** X3. A request without Cookie header, and a header in which the
    setting is missing or empty, give the setting parsed from '{}'. *)
Theorem cookie_setting_default (k : jsstring) :
  cookie_setting None k = JSON_parse (str "{}")
  /\ forall (cookieHeader : jsstring) (m : gmap jsstring jsstring),
       Cookies.parseCookies cookieHeader = Normal m ->
       m !! k = None \/ m !! k = Some ([] : jsstring) ->
       cookie_setting (Some cookieHeader) k = JSON_parse (str "{}").
Proof.
  split; [reflexivity|].
  intros cookieHeader m Hm Hk. unfold Http.cookie_setting.
  assert (Hh : or_str (Some cookieHeader) [] = cookieHeader)
    by (destruct cookieHeader; reflexivity).
  rewrite Hh, Hm. cbn [JS.bind].
  destruct Hk as [-> | ->]; reflexivity.
Qed.

End SettingFacts.

Lemma cookie_setting_default_witness :
  Http.cookie_setting unit Sample.no_cookie_json (Some (str "providers=; theme=dark"))
    (str "providers")
  = Normal tt.
Proof.
  refine (proj2 (cookie_setting_default unit Sample.no_cookie_json (str "providers"))
            (str "providers=; theme=dark")
            (<[str "theme" := str "dark"]> (<[str "providers" := []]> ∅)) _ _).
  - vm_compute. reflexivity.
  - right. vm_compute. reflexivity.
Defined.

(** ** Errors, further *)

(** X4. Whatever the error, the message [onError] returns starts with
    'Custom error: '. *)
Theorem onError_prefix (error_message : option jsstring) :
  startsWith (str "Custom error: ") (StreamError.onError error_message) = true.
Proof.
  rewrite StreamErrorFacts.onError_bucket.
  destruct (StreamError.bucket error_message); cbn [StreamError.render];
    [vm_compute; reflexivity ..|].
  apply startsWith_app. eexists. reflexivity.
Qed.

(** X5. An error that the handler would answer with 401 before the stream
    opens has a message, and inside the stream it is answered with the
    invalid-model message when that message has 'model' and 'not found',
    else with the invalid-response message when it has 'Invalid JSON
    response', and with the API key message in every other case; it never
    reaches the pass-through. *)
Theorem api_key_error_in_stream (error : Http.Thrown) :
  Http.mentions_api_key error = true ->
  exists msg,
    Http.message error = Some msg
    /\ StreamError.onError (Http.message error) =
         (if includes (str "model") msg && includes (str "not found") msg
          then StreamError.MSG_MODEL
          else if includes (str "Invalid JSON response") msg
               then StreamError.MSG_JSON
               else StreamError.MSG_AUTH)
    /\ StreamError.bucket (Http.message error) =
         (if includes (str "model") msg && includes (str "not found") msg
          then StreamError.InvalidModel
          else if includes (str "Invalid JSON response") msg
               then StreamError.InvalidResponse
               else StreamError.Authentication).
Proof.
  unfold Http.mentions_api_key. destruct (Http.message error) as [msg|]; [|discriminate].
  intros H. exists msg. split; [reflexivity|].
  assert (Hm : or_str (Some msg) (str "Unknown error") = msg)
    by (apply (StreamErrorFacts.or_str_includes _ _ H); discriminate).
  unfold StreamError.onError, StreamError.bucket. cbv zeta. rewrite Hm, H.
  destruct (includes (str "model") msg && includes (str "not found") msg);
    [split; reflexivity|].
  destruct (includes (str "Invalid JSON response") msg); split; reflexivity.
Qed.

Lemma api_key_error_in_stream_witness :
  StreamError.onError (Some (str "Missing API key for provider; rate limit 429"))
  = StreamError.MSG_AUTH.
Proof.
  destruct (api_key_error_in_stream
              {| Http.message := Some (str "Missing API key for provider; rate limit 429");
                 Http.statusCode := None; Http.isRetryable := Undefined;
                 Http.provider := None |} eq_refl) as (msg & Hm & Ho & _).
  injection Hm as <-. exact Ho.
Defined.

Lemma or_str_nonempty (s : option jsstring) (d : jsstring) : d <> [] -> or_str s d <> [].
Proof. intros Hd. destruct s as [[|c r]|]; cbn; [exact Hd | discriminate | exact Hd]. Qed.

(** X6. The catch block either answers with a JSON body whose [error] is
    true, whose statusCode reduced modulo 65536 is the HTTP status, a
    status between 200 and 599 that may carry a body, and whose message and
    provider are not empty, or throws; it throws only for an error without
    'API key': a RangeError when its statusCode or 500, so reduced, is
    outside 200..599, and a TypeError when that is 204, 205 or 304. *)
Theorem on_catch_outcome (Stream : Type) (error : Http.Thrown) :
  match @Http.on_catch Stream error with
  | Normal r =>
      exists b,
        Http.payload r = Http.Json b
        /\ Http.body_error b = true
        /\ Http.status r = (Http.body_statusCode b mod 65536)%Z
        /\ (200 <= Http.status r <= 599)%Z
        /\ Http.null_body_status (Http.status r) = false
        /\ Http.body_message b <> []
        /\ Http.body_provider b <> []
        /\ Http.contentType r = str "application/json"
  | Throw e =>
      Http.mentions_api_key error = false
      /\ let status := (or_num (Http.statusCode error) 500 mod 65536)%Z in
         (e = RangeError /\ ~ (200 <= status <= 599)%Z)
         \/ (e = TypeError /\ (200 <= status <= 599)%Z
             /\ In status [204; 205; 304]%Z)
  end.
Proof.
  unfold Http.on_catch. destruct (Http.mentions_api_key error).
  - cbn. eexists. repeat split; try reflexivity; try discriminate.
    apply or_str_nonempty. discriminate.
  - unfold Http.new_Response. cbn [Http.body_statusCode]. cbv zeta.
    set (st := (or_num (Http.statusCode error) 500 mod 65536)%Z).
    destruct (200 <=? st)%Z eqn:Hlo; destruct (st <=? 599)%Z eqn:Hhi; cbn [andb].
    + apply Z.leb_le in Hlo, Hhi.
      destruct (Http.null_body_status st) eqn:Hn.
      * split; [reflexivity|]. right. split; [reflexivity|]. split; [lia|].
        unfold Http.null_body_status in Hn.
        repeat (apply orb_prop in Hn as [Hn|Hn]); apply Z.eqb_eq in Hn;
          cbn; lia.
      * eexists. cbn [Http.payload Http.status Http.contentType Http.body_error
                      Http.body_statusCode Http.body_message Http.body_provider].
        repeat split; try reflexivity; try assumption;
          apply or_str_nonempty; discriminate.
    + apply Z.leb_gt in Hhi. split; [reflexivity|]. left. split; [reflexivity|]. lia.
    + apply Z.leb_gt in Hlo. split; [reflexivity|]. left. split; [reflexivity|]. lia.
    + apply Z.leb_gt in Hlo. split; [reflexivity|]. left. split; [reflexivity|]. lia.
Qed.

(** ** Usage, further *)

Module UsageFacts.

Import Usage UsageMore.

Lemma sum_permutation (f : option LanguageModelUsage -> Z)
    (a b : list (option LanguageModelUsage)) :
  Permutation a b -> sum f a = sum f b.
Proof.
  induction 1 as [|x a b _ IH|x y a|a b c _ IH1 _ IH2]; cbn [sum];
    [reflexivity | rewrite IH; reflexivity | lia | congruence].
Qed.

Lemma worth_nonneg (n : count) : nonneg (Some n) -> (0 <= worth n)%Z.
Proof. destruct n; cbn; lia. Qed.

Lemma counted_prompt_nonneg u : nonneg_report u -> (0 <= counted_prompt u)%Z.
Proof.
  destruct u as [[p i c o t]|]; cbn; [|lia].
  intros (Hp & Hi & _). destruct p as [p|]; [exact (worth_nonneg p Hp)|].
  destruct i as [i|]; [exact (worth_nonneg i Hi)|lia].
Qed.

Lemma counted_completion_nonneg u : nonneg_report u -> (0 <= counted_completion u)%Z.
Proof.
  destruct u as [[p i c o t]|]; cbn; [|lia].
  intros (_ & _ & Hc & Ho & _). destruct c as [c|]; [exact (worth_nonneg c Hc)|].
  destruct o as [o|]; [exact (worth_nonneg o Ho)|lia].
Qed.

Lemma counted_total_nonneg u : nonneg_report u -> (0 <= counted_total u)%Z.
Proof.
  destruct u as [[p i c o t]|]; cbn; [|lia].
  intros (Hp & Hi & Hc & Ho & Ht). destruct t as [t|]; [exact (worth_nonneg t Ht)|].
  destruct p as [[p| |]|], i as [[i| |]|], c as [[c| |]|], o as [[o| |]|];
    cbn in *; lia.
Qed.

Lemma counted_total_without u :
  numeric u -> without_total u ->
  counted_total u = (counted_prompt u + counted_completion u)%Z.
Proof.
  destruct u as [[p i c o t]|]; cbn; [|reflexivity].
  intros (Hp & Hi & Hc & Ho & _) ->.
  destruct p as [[p| |]|], i as [[i| |]|], c as [[c| |]|], o as [[o| |]|];
    cbn in *; try contradiction; reflexivity.
Qed.

Lemma sum_total_without (reports : list (option LanguageModelUsage)) :
  Forall numeric reports ->
  Forall without_total reports ->
  sum counted_total reports =
    (sum counted_prompt reports + sum counted_completion reports)%Z.
Proof.
  induction 1 as [|u reports Hu _ IH]; [reflexivity|].
  intros Hw. apply Forall_cons in Hw as [Hw Hws].
  cbn [sum]. rewrite (IH Hws), (counted_total_without u Hu Hw). lia.
Qed.

End UsageFacts.

(** X7. The totals do not depend on the order in which the sub-calls
    report: accumulating a permutation of the reports gives the same totals. *)
Theorem accumulate_order_independent
    (a b : list (option Usage.LanguageModelUsage)) (c : Usage.Cumulative) :
  Permutation a b ->
  fold_left Usage.accumulate a c = fold_left Usage.accumulate b c.
Proof.
  intros H. rewrite !fold_accumulate. unfold Usage.counted_sum.
  rewrite !(UsageFacts.sum_permutation _ a b H). reflexivity.
Qed.

Lemma accumulate_order_independent_witness :
  fold_left Usage.accumulate [Sample.usage_v4 200 12; Sample.usage_v5 120 30 150; None]
    Usage.zero
  = fold_left Usage.accumulate [None; Sample.usage_v5 120 30 150; Sample.usage_v4 200 12]
      Usage.zero.
Proof.
  apply accumulate_order_independent.
  apply perm_trans with (l' := [Sample.usage_v4 200 12; None; Sample.usage_v5 120 30 150]).
  - apply perm_skip. apply perm_swap.
  - apply perm_trans with (l' := [None; Sample.usage_v4 200 12; Sample.usage_v5 120 30 150]).
    + apply perm_swap.
    + apply perm_skip. apply perm_swap.
Defined.

(** X8. A report whose counts are not negative never lowers a total. *)
Theorem accumulate_monotone (c : Usage.Cumulative)
    (usage : option Usage.LanguageModelUsage) :
  UsageMore.nonneg_report usage ->
  (Usage.cum_promptTokens c <= Usage.cum_promptTokens (Usage.accumulate c usage))%Z
  /\ (Usage.cum_completionTokens c
      <= Usage.cum_completionTokens (Usage.accumulate c usage))%Z
  /\ (Usage.cum_totalTokens c <= Usage.cum_totalTokens (Usage.accumulate c usage))%Z.
Proof.
  intros H. rewrite accumulate_counted. unfold Usage.plus, Usage.counted.
  cbn [Usage.cum_promptTokens Usage.cum_completionTokens Usage.cum_totalTokens].
  pose proof (UsageFacts.counted_prompt_nonneg usage H).
  pose proof (UsageFacts.counted_completion_nonneg usage H).
  pose proof (UsageFacts.counted_total_nonneg usage H).
  lia.
Qed.

Lemma accumulate_monotone_witness :
  (Usage.cum_totalTokens Usage.zero
   <= Usage.cum_totalTokens (Usage.accumulate Usage.zero (Sample.usage_v5 120 30 150)))%Z.
Proof.
  apply (accumulate_monotone Usage.zero (Sample.usage_v5 120 30 150)).
  cbn. lia.
Defined.

(** ** The orchestration, further *)

Section OrchestratorMore.

Import Usage Chat ChatMore.

Variable MAX_RESPONSE_SEGMENTS : nat.
Variable CONTINUE_PROMPT : jsstring.
Variable WORK_DIR : jsstring.
Variable convertToCoreMessages : list UIMessage -> list CoreMessage.
Variable extractPropertiesFromMessage : CoreMessage -> jsstring * jsstring.
Variable processToolInvocations : list UIMessage -> list UIMessage.
Variable getFilePaths : FileMap -> list jsstring.
Variable fresh_switches : nat.

Local Notation onFinish :=
  (Chat.onFinish MAX_RESPONSE_SEGMENTS CONTINUE_PROMPT convertToCoreMessages
     extractPropertiesFromMessage).
Local Notation drive :=
  (Chat.drive MAX_RESPONSE_SEGMENTS CONTINUE_PROMPT convertToCoreMessages
     extractPropertiesFromMessage).
Local Notation optimizing := (Chat.optimizing getFilePaths).
Local Notation run :=
  (Chat.run MAX_RESPONSE_SEGMENTS CONTINUE_PROMPT WORK_DIR convertToCoreMessages
     extractPropertiesFromMessage processToolInvocations getFilePaths fresh_switches).
Local Notation context_reports := (Chat.context_reports getFilePaths).
Local Notation shown_path := (Chat.shown_path WORK_DIR).
Local Notation first_args := (ChatMore.first_args convertToCoreMessages).
Local Notation continuation_args :=
  (ChatMore.continuation_args CONTINUE_PROMPT convertToCoreMessages
     extractPropertiesFromMessage).
Local Notation continuations :=
  (ChatMore.continuations MAX_RESPONSE_SEGMENTS CONTINUE_PROMPT convertToCoreMessages
     extractPropertiesFromMessage).
Local Notation generation_closure :=
  (ChatMore.generation_closure processToolInvocations getFilePaths).
Local Notation generation_calls_of :=
  (ChatMore.generation_calls_of MAX_RESPONSE_SEGMENTS CONTINUE_PROMPT
     convertToCoreMessages extractPropertiesFromMessage processToolInvocations
     getFilePaths fresh_switches).
Local Notation onFinish_eq :=
  (onFinish_unfold MAX_RESPONSE_SEGMENTS CONTINUE_PROMPT convertToCoreMessages
     extractPropertiesFromMessage).
Local Notation drive_events :=
  (drive_written MAX_RESPONSE_SEGMENTS CONTINUE_PROMPT convertToCoreMessages
     extractPropertiesFromMessage).

(** The state in which the segments start, after an optimization step
    that succeeded. *)
Lemma execute_optimized req env r c selected :
  optimizing req = true ->
  summaryReply env = Normal r ->
  selectReply env = Normal c ->
  result c = Some selected ->
  let processed := processToolInvocations (messages req) in
  let cl := {| processedMessages := processed;
               filteredFiles := Some selected;
               chat_summary := Some (result r);
               messageSliceId := slice_of processed |} in
  run req env =
    drive cl (segments env)
      {| cumulativeUsage := accumulate (accumulate zero (resp_usage r)) (resp_usage c);
         progressCounter := 6;
         switches := fresh_switches;
         written :=
           [ data_progress {| label := summary; status := in_progress; order := 1;
                              message := str "Analysing Request" |};
             data_progress {| label := summary; status := complete; order := 2;
                              message := str "Analysis Complete" |};
             data_chatSummary (result r) (id <$> last processed);
             data_progress {| label := context; status := in_progress; order := 3;
                              message := str "Determining Files to Read" |};
             data_codeContext (List.map (fun kv => shown_path (fst kv)) selected);
             data_progress {| label := context; status := complete; order := 4;
                              message := str "Code Files Selected" |};
             data_progress {| label := response; status := in_progress; order := 5;
                              message := str "Generating Response" |} ];
         calls :=
           [ call_createSummary (convertToCoreMessages processed);
             call_selectContext (convertToCoreMessages processed) (result r);
             call_streamText (first_args cl) ];
         mediated := [] |}.
Proof.
  intros Ho Hr Hc Hs. unfold Chat.run, Chat.execute, Chat.optimize. cbv zeta.
  rewrite Ho, Hr, Hc. unfold bindM, await. cbn. rewrite Hs. reflexivity.
Qed.

(** What a sequence of finishes adds to the calls. *)
Lemma drive_calls cl fins s :
  exists more,
    calls (fst (drive cl fins s)) = calls s ++ more
    /\ Forall (fun c => exists f m, In f fins /\ is_length f = true
                                    /\ c = call_streamText (continuation_args cl f m)) more
    /\ (snd (drive cl fins s) = Normal Finished ->
        S (List.length more) = List.length (segment_reports fins)).
Proof.
  revert s. induction fins as [|f fins IH]; intros s.
  - exists []. cbn. rewrite app_nil_r. repeat split; [constructor | discriminate].
  - cbn [Chat.drive segment_reports]. unfold bindM at 1 2. rewrite onFinish_eq. cbv zeta.
    destruct (is_length f) eqn:Hf.
    + destruct (MAX_RESPONSE_SEGMENTS <=? switches s)%nat;
        [exists []; cbn; rewrite app_nil_r; repeat split; [constructor | discriminate]|].
      destruct (last _) as [u|];
        [|exists []; cbn; rewrite app_nil_r; repeat split; [constructor | discriminate]].
      destruct (convertToCoreMessages [u]) as [|m ms];
        [exists []; cbn; rewrite app_nil_r; repeat split; [constructor | discriminate]|].
      match goal with
      | |- context [drive cl fins ?s2] => destruct (IH s2) as (more & Hc & Hm & Hn)
      end.
      exists (call_streamText (continuation_args cl f m) :: more).
      rewrite Hc. cbn [issue add_usage fst calls]. rewrite <- app_assoc.
      split; [reflexivity|]. split.
      * constructor.
        -- exists f, m. split; [left; reflexivity | split; [exact Hf | reflexivity]].
        -- eapply Forall_impl; [exact Hm|].
           intros c0 (f0 & m0 & Hin & Hl & Heq). exists f0, m0.
           split; [right; exact Hin | split; [exact Hl | exact Heq]].
      * intros HF. cbn [List.length]. rewrite (Hn HF). reflexivity.
    + exists []. cbn. rewrite app_nil_r. repeat split. constructor.
Qed.

(** A run either reaches the segments, its first generation call just
    issued, or fails before any generation call. *)
Lemma execute_start req env :
  (exists cl s0 ctx,
      run req env = drive cl (segments env) s0
      /\ processedMessages cl = processToolInvocations (messages req)
      /\ messageSliceId cl = slice_of (processToolInvocations (messages req))
      /\ calls s0 = ctx ++ [call_streamText (first_args cl)]
      /\ Forall (fun c => is_generation c = false) ctx)
  \/ (exists s0 e,
         run req env = (s0, Throw e)
         /\ Forall (fun c => is_generation c = false) (calls s0)).
Proof.
  destruct (optimizing req) eqn:Ho.
  - destruct (summaryReply env) as [r|e] eqn:Hr.
    + destruct (selectReply env) as [c|e] eqn:Hc.
      * destruct (result c) as [selected|] eqn:Hs.
        -- left. rewrite (execute_optimized req env r c selected Ho Hr Hc Hs). cbv zeta.
           eexists _, _, [_; _]. split; [reflexivity|].
           repeat split. repeat constructor.
        -- right. unfold Chat.run, Chat.execute, Chat.optimize. cbv zeta.
           rewrite Ho, Hr, Hc. unfold bindM, await. cbn. rewrite Hs. cbn.
           eexists _, _. split; [reflexivity|]. repeat constructor.
      * right. unfold Chat.run, Chat.execute, Chat.optimize. cbv zeta.
        rewrite Ho, Hr, Hc. unfold bindM, await. cbn.
        eexists _, _. split; [reflexivity|]. repeat constructor.
    + right. unfold Chat.run, Chat.execute, Chat.optimize. cbv zeta.
      rewrite Ho, Hr. unfold bindM, await. cbn.
      eexists _, _. split; [reflexivity|]. repeat constructor.
  - left.
    rewrite (execute_skip MAX_RESPONSE_SEGMENTS CONTINUE_PROMPT WORK_DIR
               convertToCoreMessages extractPropertiesFromMessage processToolInvocations
               getFilePaths fresh_switches req env Ho). cbv zeta.
    eexists _, _, []. split; [reflexivity|]. repeat split. constructor.
Qed.

Lemma filter_none {A} (p : A -> bool) (l : list A) :
  Forall (fun x => p x = false) l -> List.filter p l = [].
Proof.
  induction 1 as [|x l Hx _ IH]; [reflexivity|]. cbn. rewrite Hx. exact IH.
Qed.

Lemma filter_all {A} (p : A -> bool) (l : list A) :
  Forall (fun x => p x = true) l -> List.filter p l = l.
Proof.
  induction 1 as [|x l Hx _ IH]; [reflexivity|]. cbn. rewrite Hx, IH. reflexivity.
Qed.

(** The usage event of a finished run, before the sums are taken. *)
Lemma finished_usage req env s :
  run req env = (s, Normal Finished) ->
  usage_events (written s) =
    [fold_left accumulate (context_reports req env ++ segment_reports (segments env)) zero].
Proof.
  intros H.
  destruct (execute_shape MAX_RESPONSE_SEGMENTS CONTINUE_PROMPT WORK_DIR
              convertToCoreMessages extractPropertiesFromMessage processToolInvocations
              getFilePaths fresh_switches req env)
    as [(cl & s0 & Hr & Hw & Hc) | (s0 & e & Hr & _)].
  - rewrite Hr in H. destruct (drive_events cl (segments env) s0) as [Hd Hf].
    rewrite H in Hd, Hf. cbn [fst snd] in Hd, Hf.
    rewrite Hd, usage_events_app, Hw. cbn.
    rewrite (Hf eq_refl), Hc, <- fold_left_app. reflexivity.
  - rewrite Hr in H. discriminate H.
Qed.

(** X9. When every sub-call of a finished run reports numbers under the
    keys it has and none has a [totalTokens] key, the total of the usage
    event is its prompt count plus its completion count. *)
Theorem usage_total_is_sum req env s :
  run req env = (s, Normal Finished) ->
  Forall numeric (context_reports req env ++ segment_reports (segments env)) ->
  Forall UsageMore.without_total
    (context_reports req env ++ segment_reports (segments env)) ->
  exists v,
    usage_events (written s) = [v]
    /\ v = componentwise_sum
             (context_reports req env ++ segment_reports (segments env))
    /\ cum_totalTokens v = (cum_promptTokens v + cum_completionTokens v)%Z.
Proof.
  intros H Hn Hw. eexists. split; [exact (finished_usage req env s H)|].
  rewrite fold_accumulate, plus_zero_l. split; [exact (counted_sum_numeric _ Hn)|].
  unfold counted_sum. cbn.
  rewrite (UsageFacts.sum_total_without _ Hn Hw). reflexivity.
Qed.

(** X10. When the optimization step runs and both sub-calls reply, the
    summary text is handed to the selection call, the summary and the
    selected files to the generation call, and the client is sent, in this
    order, the seven events from 'summary' in progress to 'response' in
    progress, the selected paths shown without WORK_DIR. *)
Theorem optimized_run_prefix req env r c selected :
  optimizing req = true ->
  summaryReply env = Normal r ->
  selectReply env = Normal c ->
  result c = Some selected ->
  let processed := processToolInvocations (messages req) in
  let s := fst (run req env) in
  take 3 (calls s) =
    [ call_createSummary (convertToCoreMessages processed);
      call_selectContext (convertToCoreMessages processed) (result r);
      call_streamText
        {| st_messages := convertToCoreMessages processed;
           st_contextFiles := Some selected;
           st_summary := Some (result r);
           st_messageSliceId := slice_of processed |} ]
  /\ take 7 (written s) =
       [ data_progress {| label := summary; status := in_progress; order := 1;
                          message := str "Analysing Request" |};
         data_progress {| label := summary; status := complete; order := 2;
                          message := str "Analysis Complete" |};
         data_chatSummary (result r) (id <$> last processed);
         data_progress {| label := context; status := in_progress; order := 3;
                          message := str "Determining Files to Read" |};
         data_codeContext (List.map (fun kv => shown_path (fst kv)) selected);
         data_progress {| label := context; status := complete; order := 4;
                          message := str "Code Files Selected" |};
         data_progress {| label := response; status := in_progress; order := 5;
                          message := str "Generating Response" |} ].
Proof.
  intros Ho Hr Hc Hs. cbv zeta.
  rewrite (execute_optimized req env r c selected Ho Hr Hc Hs). cbv zeta.
  match goal with
  | |- context [drive ?cl _ ?s0] =>
      destruct (drive_calls cl (segments env) s0) as (more & Hcalls & _);
      destruct (drive_events cl (segments env) s0) as [Hw _]
  end.
  rewrite Hcalls, Hw. split; reflexivity.
Qed.

(** X11. When the optimization step runs and the summary call fails, the
    run fails with that exception after this one call; when the selection
    call fails, after these two calls, the usage of the summary call
    counted.  No generation call is made in either case. *)
Theorem optimization_failure req env :
  optimizing req = true ->
  let msgs := convertToCoreMessages (processToolInvocations (messages req)) in
  (forall e, summaryReply env = Throw e ->
     snd (run req env) = Throw e
     /\ calls (fst (run req env)) = [call_createSummary msgs])
  /\ (forall r e, summaryReply env = Normal r -> selectReply env = Throw e ->
        snd (run req env) = Throw e
        /\ calls (fst (run req env)) =
             [call_createSummary msgs; call_selectContext msgs (result r)]
        /\ cumulativeUsage (fst (run req env)) = accumulate zero (resp_usage r)).
Proof.
  intros Ho msgs. split.
  - intros e Hr. unfold Chat.run, Chat.execute, Chat.optimize. cbv zeta.
    rewrite Ho, Hr. unfold bindM, await. cbn. split; reflexivity.
  - intros r e Hr Hc. unfold Chat.run, Chat.execute, Chat.optimize. cbv zeta.
    rewrite Ho, Hr, Hc. unfold bindM, await. cbn. repeat split.
Qed.

(** The calls that a sequence of finishes adds: one continuation for each
    leading segment cut short. *)
Lemma drive_continuations cl fins s :
  calls (fst (drive cl fins s)) = calls s ++ continuations cl fins (switches s).
Proof.
  unfold ChatMore.continuations, ChatMore.last_user_core.
  revert s. induction fins as [|f fins IH]; intros s.
  - cbn. destruct (MAX_RESPONSE_SEGMENTS <=? switches s)%nat;
      [|destruct (last _) as [u|]; [destruct (head _)|]];
      rewrite app_nil_r; reflexivity.
  - cbn [Chat.drive ChatMore.leading_length]. unfold bindM at 1. rewrite onFinish_eq.
    cbv zeta. destruct (is_length f) eqn:Hf.
    + destruct (MAX_RESPONSE_SEGMENTS <=? switches s)%nat eqn:Hb;
        [cbn; rewrite app_nil_r; reflexivity|].
      destruct (last _) as [u|]; [|cbn; rewrite app_nil_r; reflexivity].
      destruct (convertToCoreMessages [u]) as [|m ms];
        [cbn; rewrite app_nil_r; reflexivity|].
      rewrite IH. cbn [issue add_usage fst calls switches head List.map].
      rewrite Hb, <- app_assoc. reflexivity.
    + cbn [fst progress write add_usage calls].
      destruct (MAX_RESPONSE_SEGMENTS <=? switches s)%nat;
        [|destruct (last _) as [u|]; [destruct (head _)|]];
        rewrite app_nil_r; reflexivity.
Qed.

(** A run reaches the segments with the closure of the request, its first
    generation call just issued, or fails before any generation call. *)
Lemma execute_closure req env :
  match generation_closure req env with
  | Some cl =>
      exists s0 ctx,
        run req env = drive cl (segments env) s0
        /\ calls s0 = ctx ++ [call_streamText (first_args cl)]
        /\ Forall (fun c => is_generation c = false) ctx
        /\ switches s0 = fresh_switches
  | None =>
      exists s0 e,
        run req env = (s0, Throw e)
        /\ Forall (fun c => is_generation c = false) (calls s0)
  end.
Proof.
  unfold ChatMore.generation_closure. cbv zeta.
  destruct (optimizing req) eqn:Ho.
  - destruct (summaryReply env) as [r|e] eqn:Hr.
    + destruct (selectReply env) as [c|e] eqn:Hc.
      * destruct (result c) as [selected|] eqn:Hs.
        -- rewrite (execute_optimized req env r c selected Ho Hr Hc Hs). cbv zeta.
           eexists _, [_; _]. split; [reflexivity|].
           repeat split. repeat constructor.
        -- unfold Chat.run, Chat.execute, Chat.optimize. cbv zeta.
           rewrite Ho, Hr, Hc. unfold bindM, await. cbn. rewrite Hs. cbn.
           eexists _, _. split; [reflexivity|]. repeat constructor.
      * unfold Chat.run, Chat.execute, Chat.optimize. cbv zeta.
        rewrite Ho, Hr, Hc. unfold bindM, await. cbn.
        eexists _, _. split; [reflexivity|]. repeat constructor.
    + unfold Chat.run, Chat.execute, Chat.optimize. cbv zeta.
      rewrite Ho, Hr. unfold bindM, await. cbn.
      eexists _, _. split; [reflexivity|]. repeat constructor.
  - rewrite (execute_skip MAX_RESPONSE_SEGMENTS CONTINUE_PROMPT WORK_DIR
               convertToCoreMessages extractPropertiesFromMessage processToolInvocations
               getFilePaths fresh_switches req env Ho). cbv zeta.
    eexists _, []. split; [reflexivity|]. repeat split. constructor.
Qed.

(** X12. The generation calls of a run are, in order: the first call, on
    the converted processed messages; then, when the counter is under the
    budget and the conversation has a user message, one continuation for
    each of the leading segments cut short, whose conversation is the
    converted processed messages followed by the partial text of that very
    segment and the directive read from the last user message, and by
    nothing of the segments before.  All carry the same selected files,
    summary and slice id.  A run that fails in the optimization step makes
    no generation call. *)
Theorem generation_calls req env :
  List.filter is_generation (calls (fst (run req env))) = generation_calls_of req env.
Proof.
  unfold ChatMore.generation_calls_of.
  pose proof (execute_closure req env) as H.
  destruct (generation_closure req env) as [cl|].
  - destruct H as (s0 & ctx & Hr & Hc & Hctx & Hs).
    rewrite Hr, drive_continuations, Hc, Hs, !List.filter_app, (filter_none _ ctx Hctx).
    cbn [List.filter is_generation app]. f_equal.
    apply filter_all. unfold ChatMore.continuations.
    destruct (MAX_RESPONSE_SEGMENTS <=? fresh_switches)%nat; [constructor|].
    destruct (ChatMore.last_user_core _ cl); [|constructor].
    apply List.Forall_forall. intros call Hin. apply List.in_map_iff in Hin.
    destruct Hin as (f & <- & _). reflexivity.
  - destruct H as (s0 & e & Hr & Hctx). rewrite Hr. cbn [fst].
    exact (filter_none _ _ Hctx).
Qed.

(** On the sample deployment: four segments, three of them cut short,
    make four generation calls, each continuation carrying the text of the
    segment before it. *)
Example generation_calls_sample :
  List.map (fun c => match c with
                     | call_streamText a =>
                         List.map content (drop 3 (st_messages a))
                     | _ => []
                     end)
    (List.filter is_generation
       (calls (fst (Sample.run Sample.plain_request Sample.four_segments))))
  = [ [];
      [str "a"; directive Sample.CONTINUE_PROMPT (str "o3-mini") (str "OpenAI")];
      [str "b"; directive Sample.CONTINUE_PROMPT (str "o3-mini") (str "OpenAI")];
      [str "c"; directive Sample.CONTINUE_PROMPT (str "o3-mini") (str "OpenAI")] ].
Proof. vm_compute. reflexivity. Qed.

(** X13. A run that finishes has made one generation call for each
    segment it consumed: the first call and one continuation for each
    segment cut short. *)
Theorem finished_run_calls req env s :
  run req env = (s, Normal Finished) ->
  List.length (List.filter is_generation (calls s)) =
    List.length (segment_reports (segments env)).
Proof.
  intros H.
  destruct (execute_start req env)
    as [(cl & s0 & ctx & Hr & _ & _ & Hc & Hctx) | (s0 & e & Hr & _)].
  - rewrite Hr in H.
    destruct (drive_calls cl (segments env) s0) as (more & Hcalls & Hm & Hn).
    rewrite H in Hcalls, Hn. cbn [fst snd] in Hcalls, Hn.
    rewrite Hcalls, Hc, !List.filter_app, (filter_none _ ctx Hctx).
    rewrite (filter_all is_generation more).
    + cbn. exact (Hn eq_refl).
    + eapply Forall_impl; [exact Hm|]. intros c0 (f & m & _ & _ & ->). reflexivity.
  - rewrite Hr in H. discriminate H.
Qed.

End OrchestratorMore.

(** *** The further properties on the sample deployment *)

Lemma usage_total_is_sum_witness :
  exists v,
    Chat.usage_events
      (Chat.written (fst (Sample.run Sample.optimized_request Fixtures.untotalled))) = [v]
    /\ v = Usage.componentwise_sum
             (Chat.context_reports Sample.getFilePaths Sample.optimized_request
                Fixtures.untotalled
              ++ Chat.segment_reports (Chat.segments Fixtures.untotalled))
    /\ Usage.cum_totalTokens v
       = (Usage.cum_promptTokens v + Usage.cum_completionTokens v)%Z.
Proof.
  apply (usage_total_is_sum Sample.MAX_RESPONSE_SEGMENTS Sample.CONTINUE_PROMPT
           Sample.WORK_DIR Sample.convertToCoreMessages Sample.extractPropertiesFromMessage
           Sample.processToolInvocations Sample.getFilePaths 0
           Sample.optimized_request Fixtures.untotalled).
  - vm_compute. reflexivity.
  - vm_compute. repeat constructor.
  - vm_compute. repeat constructor.
Defined.

Lemma optimized_run_prefix_witness :
  List.length
    (take 3 (Chat.calls (fst (Sample.run Sample.optimized_request Sample.two_segments))))
  = 3%nat.
Proof.
  unfold Sample.run.
  rewrite (proj1
    (optimized_run_prefix Sample.MAX_RESPONSE_SEGMENTS Sample.CONTINUE_PROMPT
       Sample.WORK_DIR Sample.convertToCoreMessages Sample.extractPropertiesFromMessage
       Sample.processToolInvocations Sample.getFilePaths 0
       Sample.optimized_request Sample.two_segments
       {| Chat.result := str "The user wants a shop in Remix.";
          Chat.resp_usage := Sample.usage_v5 120 30 150 |}
       {| Chat.result := Some [(str "/home/project/app/root.tsx", str "export default App")];
          Chat.resp_usage := Sample.usage_v4 200 12 |}
       [(str "/home/project/app/root.tsx", str "export default App")]
       ltac:(vm_compute; reflexivity) eq_refl eq_refl eq_refl)).
  reflexivity.
Defined.

Lemma optimization_failure_witness :
  snd (Sample.run Sample.optimized_request Fixtures.summary_fails)
  = Throw (Error (str "429 Too Many Requests")).
Proof.
  apply (proj1
    (optimization_failure Sample.MAX_RESPONSE_SEGMENTS Sample.CONTINUE_PROMPT
       Sample.WORK_DIR Sample.convertToCoreMessages Sample.extractPropertiesFromMessage
       Sample.processToolInvocations Sample.getFilePaths 0
       Sample.optimized_request Fixtures.summary_fails ltac:(vm_compute; reflexivity))
    (Error (str "429 Too Many Requests")) eq_refl).
Defined.

Lemma finished_run_calls_witness :
  List.length
    (List.filter ChatMore.is_generation
       (Chat.calls (fst (Sample.run Sample.plain_request Sample.four_segments))))
  = 4%nat.
Proof.
  refine (eq_trans
    (finished_run_calls Sample.MAX_RESPONSE_SEGMENTS Sample.CONTINUE_PROMPT
       Sample.WORK_DIR Sample.convertToCoreMessages
       Sample.extractPropertiesFromMessage Sample.processToolInvocations
       Sample.getFilePaths 0 Sample.plain_request Sample.four_segments
       (fst (Sample.run Sample.plain_request Sample.four_segments)) _) _).
  - vm_compute. reflexivity.
  - reflexivity.
Defined.

(** ** The stream consumer and the tool calls *)

(** X14. The loop over the first generation stream updates the monitor
    once for each part it reads, reads nothing after an error part, and
    stops the monitor exactly once, last, whether the stream ends or an
    error part arrives. *)
Theorem consume_until_error (pre rest : list Consumer.Part) :
  Forall (fun p => Consumer.is_error p = false) pre ->
  rest = [] \/ (exists m post, rest = Consumer.part_error m :: post) ->
  Consumer.consume (pre ++ rest) =
    replicate (List.length pre + List.length (take 1 rest)) Consumer.updateActivity
    ++ [Consumer.stop].
Proof.
  intros Hpre Hrest. induction Hpre as [|p pre Hp _ IH].
  - destruct Hrest as [-> | (m & post & ->)]; reflexivity.
  - destruct p; [discriminate Hp|].
    cbn [app Consumer.consume List.length Nat.add replicate]. rewrite IH. reflexivity.
Qed.

Lemma consume_until_error_witness :
  Consumer.consume Fixtures.stream_parts =
    [Consumer.updateActivity; Consumer.updateActivity; Consumer.updateActivity;
     Consumer.stop].
Proof.
  apply (consume_until_error [Consumer.part_other; Consumer.part_other]
           [Consumer.part_error (Some (str "Invalid JSON response")); Consumer.part_other]).
  - repeat constructor.
  - right. eexists _, _. reflexivity.
Defined.

Lemma or_val_truthy (a b : jsval) : truthy (or_val (or_val a b) (Obj no_props)) = true.
Proof.
  unfold or_val. destruct (truthy a) eqn:Ha; [rewrite Ha; exact Ha|].
  destruct (truthy b) eqn:Hb; [exact Hb | reflexivity].
Qed.

(** X15. A finished step hands the mediator one invocation for each tool
    call, in order, with the call's id and name; the arguments handed over
    are never a falsy value, and a falsy [input] gives way to [args]. *)
Theorem onStepFinish_invocations (toolCalls : list Chat.ToolCall) (s : Chat.State) :
  exists new,
    Chat.mediated (fst (Chat.onStepFinish toolCalls s)) = Chat.mediated s ++ new
    /\ List.map Chat.inv_toolCallId new = List.map Chat.toolCallId toolCalls
    /\ List.map Chat.inv_toolName new = List.map Chat.toolName toolCalls
    /\ Forall (fun i => truthy (Chat.inv_args i) = true) new
    /\ Forall2 (fun tc i => truthy (Chat.input tc) = false ->
                            Chat.inv_args i = or_val (Chat.args tc) (Obj no_props))
         toolCalls new.
Proof.
  revert s. induction toolCalls as [|tc tcs IH]; intros s.
  - exists []. cbn. rewrite app_nil_r. repeat split; constructor.
  - cbn [Chat.onStepFinish]. unfold Chat.bindM at 1. cbn [Chat.processToolCall].
    match goal with
    | |- context [Chat.onStepFinish tcs ?s1] =>
        destruct (IH s1) as (new & Hm & Hi & Hn & Ht & Hf)
    end.
    eexists (_ :: new). rewrite Hm. cbn [Chat.mediated]. rewrite <- app_assoc.
    split; [reflexivity|]. cbn [List.map Chat.inv_toolCallId Chat.inv_toolName].
    rewrite Hi, Hn. repeat split.
    + constructor; [apply or_val_truthy | exact Ht].
    + constructor; [|exact Hf].
      cbn [Chat.inv_args]. intros H. unfold or_val at 2. rewrite H. reflexivity.
Qed.

(** ** The provider cache *)

Lemma getProviderInfo_filled (m : ProviderCache.Manager)
    (ps : list ProviderCache.ProviderInfo) (d : ProviderCache.ProviderInfo) :
  ProviderCache.getProviderInfo m
    {| ProviderCache.cachedProviders := Some ps;
       ProviderCache.cachedDefaultProvider := Some d |}
  = ((ps, d), {| ProviderCache.cachedProviders := Some ps;
                 ProviderCache.cachedDefaultProvider := Some d |}).
Proof. reflexivity. Qed.

Lemma serve_filled (ms : list ProviderCache.Manager)
    (ps : list ProviderCache.ProviderInfo) (d : ProviderCache.ProviderInfo) :
  Forall (fun r => r = (ps, d))
    (ProviderCache.serve ms
       {| ProviderCache.cachedProviders := Some ps;
          ProviderCache.cachedDefaultProvider := Some d |}).
Proof.
  induction ms as [|m ms IH]; [constructor|].
  cbn [ProviderCache.serve]. rewrite getProviderInfo_filled. cbn [fst snd].
  constructor; [reflexivity | exact IH].
Qed.

(** X16. Once the cache has been filled by a first request, every later
    request is answered with the providers and the default provider of that
    first manager, whatever manager it comes with. *)
Theorem provider_cache_sticky (m : ProviderCache.Manager)
    (ms : list ProviderCache.Manager) :
  Forall (fun r => r = (List.map ProviderCache.info_of (ProviderCache.getAllProviders m),
                        ProviderCache.info_of (ProviderCache.getDefaultProvider m)))
    (ProviderCache.serve (m :: ms) ProviderCache.empty).
Proof.
  cbn [ProviderCache.serve]. constructor; [reflexivity|].
  apply serve_filled.
Qed.

(** ** Template files *)

Module TemplateFacts.

Import GithubTemplate.

Lemma split_clean (c : N) (s : jsstring) :
  Forall (fun piece => ~ In c piece) (split c s).
Proof.
  induction s as [|x s IH]; cbn [split].
  - constructor; [intros [] | constructor].
  - destruct (N.eqb_spec x c) as [->|Hx].
    + constructor; [intros [] | exact IH].
    + destruct (split c s) as [|h t]; [repeat constructor; intros [H|[]]; auto|].
      inversion IH as [|? ? Hh Ht]; subst.
      constructor; [|exact Ht]. intros [H|H]; [exact (Hx H) | exact (Hh H)].
Qed.

Lemma join_snoc (c : N) (pre : list jsstring) (l : jsstring) :
  join c (pre ++ [l]) =
  match pre with
  | [] => l
  | _ => join c pre ++ c :: l
  end.
Proof.
  induction pre as [|p pre IH]; [reflexivity|].
  destruct pre as [|p' pre']; [reflexivity|].
  change (join c ((p :: p' :: pre') ++ [l]))
    with (p ++ c :: join c ((p' :: pre') ++ [l])).
  rewrite IH. change (join c (p :: p' :: pre')) with (p ++ c :: join c (p' :: pre')).
  rewrite <- app_assoc. reflexivity.
Qed.

(** The last piece of a split has no separator and ends the string, right
    after a separator if anything comes before it. *)
Lemma last_piece (c : N) (s : jsstring) :
  exists d l,
    last (split c s) = Some l
    /\ ~ In c l
    /\ s = d ++ l
    /\ (d = [] \/ exists d', d = d' ++ [c]).
Proof.
  destruct (last (split c s)) as [l|] eqn:E.
  - apply last_Some in E. destruct E as [pre E].
    pose proof (split_clean c s) as Hc. rewrite E in Hc.
    apply Forall_app in Hc. destruct Hc as [_ Hl]. inversion Hl as [|? ? Hl' _]; subst.
    pose proof (join_split c s) as Hj. rewrite E, join_snoc in Hj.
    destruct pre as [|p pre].
    + exists [], l. repeat split; [exact Hl' | symmetry; exact Hj | left; reflexivity].
    + exists (join c (p :: pre) ++ [c]), l. repeat split; [exact Hl' | |right; eauto].
      rewrite <- app_assoc. symmetry. exact Hj.
  - apply last_None in E. destruct (split_not_nil c s E).
Qed.

Lemma split_under_root (root rest : jsstring) :
  ~ In 47%N root -> split 47 (root ++ 47%N :: rest) = root :: split 47 rest.
Proof.
  induction root as [|x root IH]; intros H.
  - reflexivity.
  - cbn [app split]. destruct (N.eqb_spec x 47) as [->|Hx].
    + exfalso. apply H. left. reflexivity.
    + rewrite IH; [reflexivity|]. intros Hin. apply H. right. exact Hin.
Qed.

Lemma starts_with_root (root file : jsstring) :
  startsWith (root ++ [47%N]) file = true -> exists rest, file = root ++ 47%N :: rest.
Proof.
  intros H. apply startsWith_app in H. destruct H as [post ->].
  exists post. rewrite <- app_assoc. reflexivity.
Qed.

Lemma root_step_kept (root p : jsstring) : root <> [] -> root_step root p = root.
Proof. intros H. unfold root_step. destruct root; [contradiction | reflexivity]. Qed.

Lemma root_found (root : jsstring) (entries : list ZipEntry) :
  root <> [] -> ~ In 47%N root ->
  Forall (fun e => startsWith (root ++ [47%N]) (filename e) = true) entries ->
  entries <> [] ->
  rootFolderName entries = root.
Proof.
  intros Hr Hs Hall Hne. unfold rootFolderName.
  destruct Hall as [|e entries He Hall]; [contradiction|].
  cbn [fold_left]. destruct (starts_with_root _ _ He) as [rest Hf].
  assert (H1 : root_step [] (filename e) = root).
  { unfold root_step. cbn [truthy_str negb andb]. rewrite Hf.
    replace (includes [47%N] (root ++ 47%N :: rest)) with true.
    - rewrite (split_under_root root rest Hs). reflexivity.
    - symmetry. apply includes_app. exists root, rest. reflexivity. }
  rewrite H1. clear He Hf H1 Hne.
  induction Hall as [|e' entries' _ _ IH]; [reflexivity|].
  cbn [fold_left]. rewrite (root_step_kept root _ Hr). exact IH.
Qed.

Lemma eqb_str_longer (root rest : jsstring) : eqb_str (root ++ 47%N :: rest) root = false.
Proof.
  apply CookieFacts.eqb_str_false. intros H.
  apply (f_equal (@List.length N)) in H. rewrite length_app in H. cbn in H. lia.
Qed.

Lemma normalize_under_root (root rest : jsstring) :
  root <> [] -> normalize root (root ++ 47%N :: rest) = rest.
Proof.
  intros Hr. unfold normalize.
  assert (Ht : truthy_str root = true) by (destruct root; [contradiction | reflexivity]).
  assert (E : root ++ 47%N :: rest = (root ++ [47%N]) ++ rest)
    by (rewrite <- app_assoc; reflexivity).
  assert (Hs : startsWith (root ++ [47%N]) (root ++ 47%N :: rest) = true)
    by (apply startsWith_app; exists rest; exact E).
  rewrite Ht, Hs. cbn [andb]. rewrite E.
  replace (List.length root + 1)%nat with (List.length (root ++ [47%N]))
    by (rewrite length_app; reflexivity).
  apply drop_app_length.
Qed.

Lemma extract_under_root (root rest : jsstring) (e : ZipEntry) :
  root <> [] -> filename e = root ++ 47%N :: rest ->
  extract root e =
    if dir e then None
    else Some {| name := or_str (last (split 47 rest)) [];
                 path := rest;
                 file_content := content e |}.
Proof.
  intros Hr Hf. unfold extract. destruct (dir e); [reflexivity|].
  rewrite Hf, eqb_str_longer, (normalize_under_root root rest Hr). reflexivity.
Qed.

End TemplateFacts.

(** X17. The name of every extracted file is the part of its path after
    the last '/': it has no '/', and the path is the name, alone or right
    after a '/'. *)
Theorem template_file_name (entries : list GithubTemplate.ZipEntry)
    (f : GithubTemplate.TemplateFile) :
  In f (GithubTemplate.fileList entries) ->
  ~ In 47%N (GithubTemplate.name f)
  /\ exists d,
       GithubTemplate.path f = d ++ GithubTemplate.name f
       /\ (d = [] \/ exists d', d = d' ++ [47%N]).
Proof.
  unfold GithubTemplate.fileList. intros H.
  apply list_elem_of_In, list_elem_of_omap in H. destruct H as (e & _ & He).
  unfold GithubTemplate.extract in He.
  destruct (GithubTemplate.dir e); [discriminate|].
  destruct (eqb_str _ _); [discriminate|].
  cbv zeta in He. injection He as <-. cbn [GithubTemplate.name GithubTemplate.path].
  destruct (TemplateFacts.last_piece 47
              (GithubTemplate.normalize (GithubTemplate.rootFolderName entries)
                 (GithubTemplate.filename e)))
    as (d & l & Hl & Hc & Hs & Hd).
  rewrite Hl. assert (Ho : or_str (Some l) [] = l) by (destruct l; reflexivity).
  rewrite Ho. split; [exact Hc|]. exists d. split; [exact Hs | exact Hd].
Qed.

Lemma template_file_name_witness :
  ~ In 47%N (str "main.ts").
Proof.
  apply (template_file_name Fixtures.release
           {| GithubTemplate.name := str "main.ts";
              GithubTemplate.path := str "src/main.ts";
              GithubTemplate.file_content := str "export {}" |}).
  vm_compute. right. left. reflexivity.
Defined.

(** X18. For an archive whose entries all lie under one root folder, the
    files answered are exactly the entries that are no directories and whose
    path under the root does not start with '.git', each with that path, its
    last segment as name, and its content. *)
Theorem template_paths_under_root (entries : list GithubTemplate.ZipEntry)
    (root : jsstring) (f : GithubTemplate.TemplateFile) :
  root <> [] -> ~ In 47%N root ->
  Forall (fun e => startsWith (root ++ [47%N]) (GithubTemplate.filename e) = true) entries ->
  In f (GithubTemplate.filteredFiles entries)
  <-> exists e,
        In e entries
        /\ GithubTemplate.dir e = false
        /\ GithubTemplate.filename e = root ++ 47%N :: GithubTemplate.path f
        /\ GithubTemplate.file_content f = GithubTemplate.content e
        /\ GithubTemplate.name f = or_str (last (split 47 (GithubTemplate.path f))) []
        /\ startsWith (str ".git") (GithubTemplate.path f) = false.
Proof.
  intros Hr Hs Hall. unfold GithubTemplate.filteredFiles, GithubTemplate.fileList.
  rewrite List.filter_In, <- list_elem_of_In, list_elem_of_omap.
  destruct entries as [|e0 entries'] eqn:Hent.
  { split; [intros [(e & He & _) _]; inversion He
           | intros (e & [] & _)]. }
  rewrite <- Hent in *.
  assert (Hroot : GithubTemplate.rootFolderName entries = root).
  { apply TemplateFacts.root_found; try assumption. rewrite Hent. discriminate. }
  rewrite Hroot. split.
  - intros [(e & He & Hx) Hg]. apply list_elem_of_In in He.
    rewrite List.Forall_forall in Hall.
    destruct (TemplateFacts.starts_with_root _ _ (Hall e He)) as [rest Hf].
    rewrite (TemplateFacts.extract_under_root root rest e Hr Hf) in Hx.
    destruct (GithubTemplate.dir e) eqn:Hd; [discriminate|].
    injection Hx as <-. cbn in *. exists e.
    repeat split; try assumption; try reflexivity.
    apply negb_true_iff in Hg. exact Hg.
  - intros (e & He & Hd & Hf & Hc & Hn & Hg). split.
    + exists e. split; [apply list_elem_of_In; exact He|].
      rewrite (TemplateFacts.extract_under_root root _ e Hr Hf), Hd.
      destruct f as [n p c]. cbn in *. subst n c. reflexivity.
    + rewrite Hg. reflexivity.
Qed.

Lemma template_paths_under_root_witness :
  In {| GithubTemplate.name := str "main.ts";
        GithubTemplate.path := str "src/main.ts";
        GithubTemplate.file_content := str "export {}" |}
     (GithubTemplate.filteredFiles Fixtures.release).
Proof.
  apply (template_paths_under_root Fixtures.release (str "acme-starter-1a2b3c")).
  - discriminate.
  - vm_compute. intuition discriminate.
  - vm_compute. repeat constructor.
  - eexists. split; [right; right; right; left; reflexivity|].
    vm_compute. repeat split.
Defined.

(** The files a release archive gives: '.gitignore' goes with '.git'. *)
Example release_files :
  List.map GithubTemplate.path (GithubTemplate.filteredFiles Fixtures.release)
  = [str "src/main.ts"; str "package.json"].
Proof. vm_compute. reflexivity. Qed.

(** ** API keys *)

Section ApiKeyFacts.

Import ProviderCache ApiKeys.

Variable process_env : jsstring -> option jsstring.
Variable manager_env : jsstring -> option jsstring.

Local Notation export_step := (ApiKeys.export_step process_env manager_env).
Local Notation export_keys := (ApiKeys.export_keys process_env manager_env).
Local Notation isSet := (ApiKeys.isSet process_env manager_env).

Lemma step_other (a : gmap jsstring jsstring) (p : Provider) (k : jsstring) :
  name p <> k -> export_step a p !! k = a !! k.
Proof.
  intros Hk. unfold ApiKeys.export_step.
  destruct (apiTokenKey p) as [[|c r]|]; try reflexivity.
  destruct (has_truthy a (name p)); [reflexivity|].
  destruct (first_truthy _ _) as [[|c' r']|]; try reflexivity.
  apply lookup_insert_ne. exact Hk.
Qed.

(** A step leaves a name alone once the object answers truthy for it. *)
Lemma step_kept (a : gmap jsstring jsstring) (p : Provider) (k : jsstring) :
  has_truthy a k = true -> export_step a p !! k = a !! k.
Proof.
  intros Ht. destruct (decide (name p = k)) as [E|E]; [|apply step_other; exact E].
  unfold ApiKeys.export_step. rewrite E, Ht.
  destruct (apiTokenKey p) as [[|c r]|]; reflexivity.
Qed.

Lemma has_truthy_lookup (a b : gmap jsstring jsstring) (k : jsstring) :
  a !! k = b !! k -> has_truthy a k = has_truthy b k.
Proof. unfold has_truthy. intros ->. reflexivity. Qed.

Lemma fold_kept (ps : list Provider) (a : gmap jsstring jsstring) (k : jsstring) :
  has_truthy a k = true -> fold_left export_step ps a !! k = a !! k.
Proof.
  revert a. induction ps as [|p ps IH]; intros a Ht; [reflexivity|].
  cbn [fold_left]. rewrite IH.
  - apply step_kept. exact Ht.
  - rewrite (has_truthy_lookup _ a k (step_kept a p k Ht)). exact Ht.
Qed.

Lemma fold_other (ps : list Provider) (a : gmap jsstring jsstring) (k : jsstring) :
  Forall (fun p => name p <> k) ps -> fold_left export_step ps a !! k = a !! k.
Proof.
  intros H. revert a. induction H as [|p ps Hp _ IH]; intros a; [reflexivity|].
  cbn [fold_left]. rewrite IH. apply step_other. exact Hp.
Qed.

Lemma has_truthy_own (a : gmap jsstring jsstring) (k v : jsstring) :
  a !! k = Some v -> v <> [] -> has_truthy a k = true.
Proof. unfold has_truthy. intros -> Hv. destruct v; [contradiction | reflexivity]. Qed.

(** What a step can put under a name. *)
Lemma step_source (a : gmap jsstring jsstring) (p : Provider) (k v : jsstring) :
  export_step a p !! k = Some v ->
  a !! k = Some v
  \/ (v <> [] /\ name p = k
      /\ exists e, apiTokenKey p = Some e /\ e <> []
                   /\ first_truthy (process_env e) (manager_env e) = Some v).
Proof.
  unfold ApiKeys.export_step.
  destruct (apiTokenKey p) as [[|c r]|] eqn:Hk; try (intros H; left; exact H).
  destruct (has_truthy a (name p)); [intros H; left; exact H|].
  destruct (first_truthy _ _) as [[|c' r']|] eqn:Hf; try (intros H; left; exact H).
  destruct (decide (name p = k)) as [E|E].
  - rewrite E, lookup_insert_eq. intros H. injection H as <-. right.
    split; [discriminate|]. split; [reflexivity|].
    exists (c :: r). split; [reflexivity|]. split; [discriminate | exact Hf].
  - rewrite lookup_insert_ne by exact E. intros H. left. exact H.
Qed.

Lemma truthy_first (a b : option jsstring) :
  truthy_opt (first_truthy a b) = truthy_opt a || truthy_opt b.
Proof. destruct a as [[|c r]|]; reflexivity. Qed.

(** The step of a provider whose environment holds no key changes nothing. *)
Lemma step_unset (a : gmap jsstring jsstring) (p : Provider) (e : jsstring) :
  apiTokenKey p = Some e ->
  truthy_opt (first_truthy (process_env e) (manager_env e)) = false ->
  export_step a p = a.
Proof.
  intros Hk He. unfold ApiKeys.export_step. rewrite Hk.
  destruct e as [|c r]; [reflexivity|].
  destruct (has_truthy a (name p)); [reflexivity|].
  destruct (first_truthy _ _) as [[|c' r']|]; [reflexivity | discriminate He | reflexivity].
Qed.

Lemma step_set (a : gmap jsstring jsstring) (p : Provider) (c : N) (r : jsstring) :
  apiTokenKey p = Some (c :: r) ->
  truthy_opt (first_truthy (process_env (c :: r)) (manager_env (c :: r))) = true ->
  has_truthy (export_step a p) (name p) = true.
Proof.
  intros Hk He. unfold ApiKeys.export_step. rewrite Hk.
  destruct (has_truthy a (name p)) eqn:Ht; [exact Ht|].
  destruct (first_truthy _ _) as [[|c' r']|]; try discriminate He.
  unfold has_truthy. rewrite lookup_insert_eq. reflexivity.
Qed.

Lemma fold_unset (ps : list Provider) (a : gmap jsstring jsstring) (p : Provider)
    (e : jsstring) :
  (forall q, In q ps -> name q = name p -> q = p) ->
  apiTokenKey p = Some e ->
  truthy_opt (first_truthy (process_env e) (manager_env e)) = false ->
  fold_left export_step ps a !! name p = a !! name p.
Proof.
  intros Hu Hk He. revert a. induction ps as [|q ps IH]; intros a; [reflexivity|].
  cbn [fold_left]. rewrite IH by (intros q' Hq'; apply Hu; right; exact Hq').
  destruct (decide (name q = name p)) as [E|E].
  - rewrite (Hu q (or_introl eq_refl) E), (step_unset a p e Hk He). reflexivity.
  - apply step_other. exact E.
Qed.

Lemma fold_set (ps : list Provider) (a : gmap jsstring jsstring) (p : Provider)
    (c : N) (r : jsstring) :
  In p ps ->
  apiTokenKey p = Some (c :: r) ->
  truthy_opt (first_truthy (process_env (c :: r)) (manager_env (c :: r))) = true ->
  has_truthy (fold_left export_step ps a) (name p) = true.
Proof.
  intros Hin Hk He. revert a. induction ps as [|q ps IH]; intros a; [destruct Hin|].
  cbn [fold_left]. destruct Hin as [-> | Hin]; [|apply IH; exact Hin].
  pose proof (step_set a p c r Hk He) as Hs.
  rewrite (has_truthy_lookup _ (export_step a p) (name p) (fold_kept ps _ _ Hs)).
  exact Hs.
Qed.

(** X19. The export loader never replaces a key that came with the
    cookie and is not empty, and passes on unchanged what the cookie holds
    under names that are no providers. *)
Theorem export_keeps_cookie (apiKeysFromCookie : gmap jsstring jsstring)
    (providers : list Provider) (k : jsstring) :
  (exists v, apiKeysFromCookie !! k = Some v /\ v <> [])
  \/ Forall (fun p => name p <> k) providers ->
  export_keys apiKeysFromCookie providers !! k = apiKeysFromCookie !! k.
Proof.
  unfold ApiKeys.export_keys. intros [(v & Hv & Hne) | H].
  - apply fold_kept. exact (has_truthy_own _ k v Hv Hne).
  - apply fold_other. exact H.
Qed.

(** X20. Every key the export loader answers with is the cookie's or is
    the non-empty value that the environment holds for the token key of a
    provider of that name; the process environment goes first. *)
Theorem export_key_source (apiKeysFromCookie : gmap jsstring jsstring)
    (providers : list Provider) (k v : jsstring) :
  export_keys apiKeysFromCookie providers !! k = Some v ->
  apiKeysFromCookie !! k = Some v
  \/ (v <> []
      /\ exists p e,
           In p providers /\ name p = k /\ apiTokenKey p = Some e /\ e <> []
           /\ first_truthy (process_env e) (manager_env e) = Some v).
Proof.
  unfold ApiKeys.export_keys. revert apiKeysFromCookie.
  induction providers as [|p ps IH]; intros a H; [left; exact H|].
  cbn [fold_left] in H. destruct (IH _ H) as [Hs | (Hv & q & e & Hq & Hn & Hk & He & Hf)].
  - destruct (step_source a p k v Hs) as [Ha | (Hv & Hn & e & Hk & He & Hf)].
    + left. exact Ha.
    + right. split; [exact Hv|]. exists p, e.
      repeat split; try assumption. left. reflexivity.
  - right. split; [exact Hv|]. exists q, e.
    repeat split; try assumption. right. exact Hq.
Qed.


End ApiKeyFacts.

Lemma export_keeps_cookie_witness :
  ApiKeys.export_keys Fixtures.process_env Fixtures.manager_env Fixtures.cookie_keys
    Fixtures.registry !! str "OpenAI"
  = Some (str "sk-cookie").
Proof.
  refine (eq_trans
    (export_keeps_cookie Fixtures.process_env Fixtures.manager_env Fixtures.cookie_keys
       Fixtures.registry (str "OpenAI") _) _).
  - left. exists (str "sk-cookie"). split; [vm_compute; reflexivity | discriminate].
  - vm_compute. reflexivity.
Defined.

Lemma export_key_source_witness :
  Fixtures.cookie_keys !! str "Anthropic" = Some (str "sk-ant-env")
  \/ (str "sk-ant-env" <> []
      /\ exists p e,
           In p Fixtures.registry /\ ProviderCache.name p = str "Anthropic"
           /\ ProviderCache.apiTokenKey p = Some e /\ e <> []
           /\ ApiKeys.first_truthy (Fixtures.process_env e) (Fixtures.manager_env e)
              = Some (str "sk-ant-env")).
Proof.
  apply (export_key_source Fixtures.process_env Fixtures.manager_env Fixtures.cookie_keys
           Fixtures.registry).
  vm_compute. reflexivity.
Defined.

